(** * Verification of [basic_memory.mcp]: the server lock, the agent controls
      and the project enforcement

    The first and larger part embeds [src/basic_memory/mcp/lock.py] : the
    class [McpServerLock] with its primitives [_read_lock],
    [_process_exists], [_kill_process], [_write_lock], [_remove_lock], the
    two operations [acquire] and [release], and the context manager.

    The Python code talks to two parts of the operating system, which are
    modelled as an explicit world:
    - the file system, reduced to the configuration directory and the one
      file [.mcp.lock] in it, together with the conditions under which an
      operation on them raises [OSError];
    - the process table, with what POSIX [kill(2)] does on it (as reached
      through [os.kill]).

    Every function of the class is a program in a small monad that threads
    the world, may raise a Python exception and records the system calls and
    the [logger] calls it makes.

    One process runs the class at a time: two processes that acquire the same
    directory at the same moment are outside the model, as they are outside
    what the lock promises.  A file operation either fails and changes
    nothing, or succeeds.

    The second part embeds the agent controls, [check_agent_controls] of
    [fork_extensions.py] and of [project_context.py], on the values that
    [json.load] returns, and [enforce_project_schemas] of [server.py], on a
    store of tool objects. *)

From Stdlib Require Import ZArith Lia Ascii String List Decimal DecimalString DecimalZ.
From Stdlib Require Import Floats.SpecFloat.
From stdpp Require Import base option list strings gmap fin_maps.

Local Open Scope string_scope.
Local Open Scope list_scope.
Local Open Scope Z_scope.

(** ** Text: [str.strip], [int(str)] and [str(int)]

    The text of the lock file is a [string] whose characters are the code
    points U+0000 to U+00FF.  On these code points the definitions below are
    the ones of CPython. *)

Module Text.

(** [str.isspace] on one character.  Below U+0100 the characters that CPython
    classifies as white space are TAB, LF, VT, FF, CR, the four separators
    U+001C to U+001F, SPACE, NEL (U+0085) and NBSP (U+00A0). *)
Definition isspace (c : ascii) : bool :=
  let n := N_of_ascii c in
  ((9 <=? n) && (n <=? 13) || (28 <=? n) && (n <=? 32) || (n =? 133) || (n =? 160))%N.

(** [str.lstrip()] and [str.rstrip()] without argument. *)
Fixpoint lstrip (s : string) : string :=
  match s with
  | EmptyString => EmptyString
  | String c s' => if isspace c then lstrip s' else s
  end.

Fixpoint rstrip (s : string) : string :=
  match s with
  | EmptyString => EmptyString
  | String c s' =>
      match rstrip s' with
      | EmptyString => if isspace c then EmptyString else String c EmptyString
      | r => String c r
      end
  end.

(** [str.strip()] *)
Definition strip (s : string) : string := rstrip (lstrip s).

Definition isdigit (c : ascii) : bool :=
  let n := N_of_ascii c in ((48 <=? n) && (n <=? 57))%N.

Definition digit_value (c : ascii) : Z := Z.of_N (N_of_ascii c) - 48.

(** The digits of a base-10 literal after its first digit.  An underscore is
    accepted between two digits only: [after_us] records that the previous
    character was an underscore, which a digit has to follow. *)
Fixpoint digits_acc (after_us : bool) (acc : Z) (s : string) : option Z :=
  match s with
  | EmptyString => if after_us then None else Some acc
  | String c s' =>
      if isdigit c then digits_acc false (10 * acc + digit_value c) s'
      else if Ascii.eqb c "_" then
        if after_us then None else digits_acc true acc s'
      else None
  end.

(** An unsigned literal starts with a digit. *)
Definition parse_unsigned (s : string) : option Z :=
  match s with
  | EmptyString => None
  | String c s' => if isdigit c then digits_acc false (digit_value c) s' else None
  end.

(** An optional sign, then the unsigned literal. *)
Definition parse_signed (s : string) : option Z :=
  match s with
  | EmptyString => None
  | String c s' =>
      if Ascii.eqb c "-" then Z.opp <$> parse_unsigned s'
      else if Ascii.eqb c "+" then parse_unsigned s'
      else parse_unsigned s
  end.

(** Every character of [s] satisfies [P]. *)
Fixpoint forall_chars (P : ascii -> bool) (s : string) : bool :=
  match s with
  | EmptyString => true
  | String c s' => P c && forall_chars P s'
  end.

(** [int(s)] in base 10: [None] stands for the [ValueError] that [int] raises
    on text that is not an integer literal.  [int] skips white space around
    the literal itself.  The interpreter's bound on the number of digits of a
    literal ([sys.int_max_str_digits]) is taken to be off. *)
Definition py_int (s : string) : option Z := parse_signed (strip s).

(** [str(n)] for an [int]: the decimal digits, with a minus sign for a
    negative number, and no leading zero. *)
Definition py_str (n : Z) : string := NilZero.string_of_int (Z.to_int n).

End Text.

Import Text.


(** ** The world: file system and process table *)

(** The signals [os.kill] is called with: [0] (the null signal of the
    liveness probe), [signal.SIGTERM] and [signal.SIGKILL]. *)
Inductive Signal := SIG0 | SIGTERM | SIGKILL.

(** What a process does when SIGTERM is delivered to it: it is gone by the
    end of the grace period, or it is still running then (the signal is
    ignored, or its handler takes longer). *)
Inductive TermResponse := TermExits | TermStays.

(** A running process, as far as signalling it matters.  A process that has
    exited is out of the table: it is taken to have been reaped.
    - [pgid]: its process group, addressed by a non-positive [pid] argument;
    - [permitted]: the caller may signal it (same user, or the caller is
      privileged); otherwise [kill] fails with EPERM;
    - [on_term]: its response to SIGTERM;
    - [exits_after]: [Some n] when the process exits on its own after [n]
      further system calls of the caller, [None] when it runs until killed. *)
Record Proc := mkProc {
  pgid : Z;
  permitted : bool;
  on_term : TermResponse;
  exits_after : option nat
}.

(** The configuration directory and its lock file.  The four flags say which
    operations the operating system refuses (permissions, read-only or full
    volume, undecodable bytes): the operation then raises [OSError] (for
    reading, [OSError] or [UnicodeDecodeError]) and changes nothing. *)
Record FileSystem := mkFS {
  dir_exists : bool;
  lock_file : option string;
  mkdir_fails : bool;
  read_fails : bool;
  write_fails : bool;
  unlink_fails : bool
}.

Record World := mkWorld {
  getpid : Z;
  procs : gmap Z Proc;
  fs : FileSystem
}.

Definition set_procs (m : gmap Z Proc) (w : World) : World :=
  mkWorld (getpid w) m (fs w).

Definition set_fs (f : FileSystem) (w : World) : World :=
  mkWorld (getpid w) (procs w) f.

Definition set_lock_file (o : option string) (f : FileSystem) : FileSystem :=
  mkFS (dir_exists f) o (mkdir_fails f) (read_fails f) (write_fails f) (unlink_fails f).

Definition set_dir_exists (b : bool) (f : FileSystem) : FileSystem :=
  mkFS b (lock_file f) (mkdir_fails f) (read_fails f) (write_fails f) (unlink_fails f).

(** ** Exceptions, events and the monad *)

(** The two reasons for which [os.kill] raises [OSError]. *)
Inductive Errno := ESRCH | EPERM.

(** The messages of [McpLockError], one per [raise] of the class. The text of
    the underlying [OSError] is not modelled. *)
Inductive LockErrorMsg :=
| CouldNotTerminate (existing_pid : Z)
| FailedToWriteLockFile.

Inductive Exn :=
| OSError
| KillError (e : Errno)        (* the [OSError] raised by [os.kill] *)
| ValueError
| OverflowError
| McpLockError (msg : LockErrorMsg).

(** [isinstance(e, OSError)] *)
Definition is_OSError (e : Exn) : bool :=
  match e with OSError | KillError _ => true | _ => false end.

Definition is_ValueError (e : Exn) : bool :=
  match e with ValueError => true | _ => false end.

(** The text of a lock error, as the f-strings of the class build it. *)
Definition message (m : LockErrorMsg) : string :=
  match m with
  | CouldNotTerminate p => "Could not terminate existing MCP server (PID " +:+ py_str p +:+ ")"
  | FailedToWriteLockFile => "Failed to write lock file: "
  end.

Inductive Level := Debug | Info | Warning.

(** One constructor per [logger] call of the class, with the process
    identifiers its message interpolates (paths and exception texts are left
    out). *)
Inductive LogMsg :=
| InvalidLockFileContent
| SendingSigterm (pid : Z)
| NoResponseSendingSigkill (pid : Z)
| SuccessfullyTerminated (pid : Z)
| FailedToKill (pid : Z)
| WroteLockFile (pid : Z)
| RemovedLockFile
| FailedToRemoveLockFile
| AcquiringLock
| FoundRunningServer (pid : Z)
| RemovingStaleLock (pid : Z)
| AcquiredLock (pid : Z)
| ReleasingLock (pid : Z)
| ReleasedLock
| PidMismatch (current_pid : option Z) (pid : Z).

(** What a run does that can be observed from outside: the calls of
    [os.kill] with their outcome ([None]: delivered), the calls of
    [time.sleep], and the log. *)
Inductive Event :=
| EvKill (pid : Z) (sig : Signal) (err : option Exn)
| EvSleep (seconds : Z)
| EvLog (lvl : Level) (msg : LogMsg).

(** The outcome of running a piece of the program: it returns a value, it
    raises an exception, or the calling process is terminated by a signal it
    sent to itself.  Each outcome carries the world reached and the events of
    the run, oldest first. *)
Inductive Result (A : Type) :=
| Ret (a : A) (w : World) (tr : list Event)
| Raise (e : Exn) (w : World) (tr : list Event)
| Died (w : World) (tr : list Event).
Arguments Ret {A} a w tr.
Arguments Raise {A} e w tr.
Arguments Died {A} w tr.

Definition M (A : Type) : Type := World -> Result A.

Definition prepend {A} (tr0 : list Event) (r : Result A) : Result A :=
  match r with
  | Ret a w tr => Ret a w (tr0 ++ tr)
  | Raise e w tr => Raise e w (tr0 ++ tr)
  | Died w tr => Died w (tr0 ++ tr)
  end.

Definition ret {A} (a : A) : M A := fun w => Ret a w [].

Definition bind {A B} (m : M A) (k : A -> M B) : M B := fun w =>
  match m w with
  | Ret a w1 tr1 => prepend tr1 (k a w1)
  | Raise e w1 tr1 => Raise e w1 tr1
  | Died w1 tr1 => Died w1 tr1
  end.

Definition raise {A} (e : Exn) : M A := fun w => Raise e w [].

(** [try: body  except <handles> as e: handler] *)
Definition try_except {A} (body : M A) (handles : Exn -> bool) (handler : Exn -> M A) : M A :=
  fun w =>
    match body w with
    | Raise e w1 tr1 => if handles e then prepend tr1 (handler e w1) else Raise e w1 tr1
    | r => r
    end.

Declare Scope py_scope.
Delimit Scope py_scope with py.
Notation "x <- m ;; k" := (bind m (fun x => k))
  (at level 100, m at next level, k at level 200, right associativity) : py_scope.
Notation "m ;; k" := (bind m (fun _ => k))
  (at level 100, k at level 200, right associativity) : py_scope.
Local Open Scope py_scope.

Definition trace_of {A} (r : Result A) : list Event :=
  match r with Ret _ _ tr | Raise _ _ tr | Died _ tr => tr end.

Definition world_of {A} (r : Result A) : World :=
  match r with Ret _ w _ | Raise _ w _ | Died w _ => w end.

(** ** The [logger] *)

Definition log (lvl : Level) (msg : LogMsg) : M unit := fun w => Ret tt w [EvLog lvl msg].

(** ** [os.kill] and [time.sleep] *)

(** One system call of the caller goes by: the processes that were about to
    exit on their own are gone.  The caller itself is running. *)
Definition age (self : Z) (k : Z) (p : Proc) : option Proc :=
  if k =? self then Some p
  else match exits_after p with
       | None => Some p
       | Some O => None
       | Some (S n) => Some (mkProc (pgid p) (permitted p) (on_term p) (Some n))
       end.

Definition tick (w : World) : World :=
  set_procs (map_imap (age (getpid w)) (procs w)) w.

(** [pid_t] is a C [int]: [os.kill] refuses any other integer with
    [OverflowError], before any system call. *)
Definition in_pid_t (pid : Z) : bool := (- 2 ^ 31 <=? pid) && (pid <? 2 ^ 31).

(** A process may always signal itself. *)
Definition may_signal (w : World) (k : Z) (p : Proc) : bool :=
  (k =? getpid w) || permitted p.

(** Whether the delivery of [sig] ends the process. *)
Definition fatal (sig : Signal) (p : Proc) : bool :=
  match sig with
  | SIG0 => false
  | SIGTERM => match on_term p with TermExits => true | TermStays => false end
  | SIGKILL => true
  end.

(** The processes a non-positive [pid] addresses: the caller's process group
    for [0], every process but init and the caller for [-1], the group
    [-pid] otherwise. *)
Definition caller_pgid (w : World) : Z :=
  match procs w !! getpid w with Some c => pgid c | None => 0 end.

Definition addressed (w : World) (pid : Z) (k : Z) (p : Proc) : bool :=
  if pid =? 0 then pgid p =? caller_pgid w
  else if pid =? -1 then negb (k =? 1) && negb (k =? getpid w)
  else pgid p =? - pid.

Definition hit (w : World) (pid : Z) (sig : Signal) (k : Z) (p : Proc) : bool :=
  addressed w pid k p && may_signal w k p && fatal sig p.

(** [kill(pid, sig)] for [0 < pid]: one process. *)
Definition kill_one (pid : Z) (sig : Signal) : M unit := fun w =>
  match procs w !! pid with
  | None => Raise (KillError ESRCH) (tick w) [EvKill pid sig (Some (KillError ESRCH))]
  | Some p =>
      if may_signal w pid p then
        if fatal sig p then
          let w' := set_procs (delete pid (procs w)) w in
          if pid =? getpid w then Died w' [EvKill pid sig None]
          else Ret tt (tick w') [EvKill pid sig None]
        else Ret tt (tick w) [EvKill pid sig None]
      else Raise (KillError EPERM) (tick w) [EvKill pid sig (Some (KillError EPERM))]
  end.

(** [kill(pid, sig)] for [pid <= 0]: the signal goes to every addressed
    process that the caller may signal; the call fails when there is none. *)
Definition kill_many (pid : Z) (sig : Signal) : M unit := fun w =>
  let addr := filter (fun kp => addressed w pid kp.1 kp.2 = true) (procs w) in
  if decide (addr = ∅) then
    Raise (KillError ESRCH) (tick w) [EvKill pid sig (Some (KillError ESRCH))]
  else if decide (filter (fun kp => may_signal w kp.1 kp.2 = true) addr = ∅) then
    Raise (KillError EPERM) (tick w) [EvKill pid sig (Some (KillError EPERM))]
  else
    let w' := set_procs (filter (fun kp => hit w pid sig kp.1 kp.2 = false) (procs w)) w in
    match procs w !! getpid w with
    | Some c =>
        if hit w pid sig (getpid w) c then Died w' [EvKill pid sig None]
        else Ret tt (tick w') [EvKill pid sig None]
    | None => Ret tt (tick w') [EvKill pid sig None]
    end.

(** [os.kill(pid, sig)] *)
Definition os_kill (pid : Z) (sig : Signal) : M unit := fun w =>
  if in_pid_t pid then
    if 0 <? pid then kill_one pid sig w else kill_many pid sig w
  else Raise OverflowError w [EvKill pid sig (Some OverflowError)].

(** [time.sleep(seconds)] *)
Definition time_sleep (seconds : Z) : M unit := fun w => Ret tt (tick w) [EvSleep seconds].

(** ** [pathlib]: the operations on the directory and the lock file *)

(** [self.lock_file.exists()] *)
Definition lock_file_exists : M bool := fun w =>
  Ret (bool_decide (is_Some (lock_file (fs w)))) w [].

(** [self.lock_file.read_text()] *)
Definition lock_file_read_text : M string := fun w =>
  match lock_file (fs w) with
  | Some content => if read_fails (fs w) then Raise OSError w [] else Ret content w []
  | None => Raise OSError w []
  end.

(** [self.config_dir.mkdir(parents=True, exist_ok=True)] *)
Definition config_dir_mkdir : M unit := fun w =>
  if dir_exists (fs w) then Ret tt w []
  else if mkdir_fails (fs w) then Raise OSError w []
  else Ret tt (set_fs (set_dir_exists true (fs w)) w) [].

(** [self.lock_file.write_text(text)] *)
Definition lock_file_write_text (text : string) : M unit := fun w =>
  if negb (dir_exists (fs w)) || write_fails (fs w) then Raise OSError w []
  else Ret tt (set_fs (set_lock_file (Some text) (fs w)) w) [].

(** [self.lock_file.unlink()] *)
Definition lock_file_unlink : M unit := fun w =>
  match lock_file (fs w) with
  | Some _ =>
      if unlink_fails (fs w) then Raise OSError w []
      else Ret tt (set_fs (set_lock_file None (fs w)) w) []
  | None => Raise OSError w []
  end.

(** ** The class [McpServerLock] *)

Definition LOCK_FILE_NAME : string := ".mcp.lock".

(** The handle: the directory it protects and the process identifier taken
    at construction. *)
Record McpServerLock := mkLock {
  config_dir : string;
  pid : Z
}.

(** [McpServerLock(config_dir)]: [__init__] stores [os.getpid()]. *)
Definition McpServerLock_init (dir : string) (w : World) : McpServerLock :=
  mkLock dir (getpid w).

(** Truth value of an [Optional[int]]: [None] and [0] are false. *)
Definition truthy (o : option Z) : bool :=
  match o with Some n => negb (n =? 0) | None => false end.

Definition _read_lock (self : McpServerLock) : M (option Z) :=
  ex <- lock_file_exists ;;
  if negb ex then ret None
  else
    try_except
      (content <- lock_file_read_text ;;
       match py_int (strip content) with
       | Some n => ret (Some n)
       | None => raise ValueError
       end)
      (fun e => is_ValueError e || is_OSError e)
      (fun _ => log Warning InvalidLockFileContent ;; ret None).

Definition _process_exists (self : McpServerLock) (pid : Z) : M bool :=
  try_except
    (os_kill pid SIG0 ;; ret true)
    is_OSError
    (fun _ => ret false).

Definition _kill_process (self : McpServerLock) (pid : Z) : M bool :=
  try_except
    (log Info (SendingSigterm pid) ;;
     os_kill pid SIGTERM ;;
     time_sleep 1 ;;
     still <- _process_exists self pid ;;
     (if still then
        log Warning (NoResponseSendingSigkill pid) ;;
        os_kill pid SIGKILL
      else ret tt) ;;
     log Info (SuccessfullyTerminated pid) ;;
     ret true)
    is_OSError
    (fun _ => log Warning (FailedToKill pid) ;; ret false).

Definition _write_lock (self : McpServerLock) : M unit :=
  try_except
    (config_dir_mkdir ;;
     lock_file_write_text (py_str (pid self)) ;;
     log Debug (WroteLockFile (pid self)))
    is_OSError
    (fun _ => raise (McpLockError FailedToWriteLockFile)).

Definition _remove_lock (self : McpServerLock) : M unit :=
  try_except
    (ex <- lock_file_exists ;;
     if ex then lock_file_unlink ;; log Debug RemovedLockFile else ret tt)
    is_OSError
    (fun _ => log Warning FailedToRemoveLockFile).

Definition acquire (self : McpServerLock) : M unit :=
  log Debug AcquiringLock ;;
  existing_pid <- _read_lock self ;;
  (if truthy existing_pid then
     let existing_pid := default 0 existing_pid in
     alive <- _process_exists self existing_pid ;;
     if alive then
       log Warning (FoundRunningServer existing_pid) ;;
       killed <- _kill_process self existing_pid ;;
       if killed then _remove_lock self
       else raise (McpLockError (CouldNotTerminate existing_pid))
     else
       log Info (RemovingStaleLock existing_pid) ;;
       _remove_lock self
   else ret tt) ;;
  _write_lock self ;;
  log Info (AcquiredLock (pid self)).

Definition release (self : McpServerLock) : M unit :=
  log Debug (ReleasingLock (pid self)) ;;
  current_pid <- _read_lock self ;;
  if bool_decide (current_pid = Some (pid self)) then
    _remove_lock self ;;
    log Info ReleasedLock
  else
    log Warning (PidMismatch current_pid (pid self)).

(** [__enter__] acquires and hands the handle to the [with] block. *)
Definition __enter__ (self : McpServerLock) : M McpServerLock :=
  acquire self ;;
  ret self.

(** [__exit__] releases and returns [False]: an exception of the block is
    raised again. *)
Definition __exit__ (self : McpServerLock) : M bool :=
  release self ;;
  ret false.

(** [with McpServerLock(dir) as lock: body], as the [with] statement runs
    it: the block is entered once [__enter__] has returned; [__exit__] is
    called when the block ends, normally or by an exception, and the
    exception is raised again unless [__exit__] returns a true value. *)
Definition with_lock (self : McpServerLock) (body : McpServerLock -> M unit) : M unit :=
  lock <- __enter__ self ;;
  fun w =>
    match body lock w with
    | Ret _ w1 tr1 => prepend tr1 ((__exit__ self ;; ret tt) w1)
    | Raise e w1 tr1 =>
        prepend tr1 ((suppress <- __exit__ self ;; if suppress then ret tt else raise e) w1)
    | Died w1 tr1 => Died w1 tr1
    end.

(** ** Observations on a run *)

(** The signals that end or ask to end a process. *)
Definition is_termination_signal (sig : Signal) : bool :=
  match sig with SIG0 => false | _ => true end.

(** The calls of [os.kill], whatever the signal. *)
Definition kill_calls (tr : list Event) : list (Z * Signal) :=
  omap (fun ev => match ev with EvKill p s _ => Some (p, s) | _ => None end) tr.

(** The invocations of [_kill_process] in a run, by the process they were
    for.  The routine starts by one [os.kill(pid, SIGTERM)], and no other
    code of the class sends that signal. *)
Definition termination_calls (tr : list Event) : list Z :=
  omap (fun ev => match ev with EvKill p SIGTERM _ => Some p | _ => None end) tr.

(** The identifier that the text of the lock file holds: none when the file
    is missing or its text is no integer. *)
Definition content_pid (w : World) : option Z :=
  content ← lock_file (fs w); py_int (strip content).

(** The identifier that a reader gets from the lock file: the one its text
    holds, unless the file cannot be read. *)
Definition recorded_pid (w : World) : option Z :=
  if read_fails (fs w) then None else content_pid w.

(** The configuration directory exists or can be created, and the lock file
    can be written. *)
Definition can_write_lock (w : World) : bool :=
  (dir_exists (fs w) || negb (mkdir_fails (fs w))) && negb (write_fails (fs w)).

(** The world in which the lock file holds [str(pid)]. *)
Definition written (self : McpServerLock) (w : World) : World :=
  set_fs (set_lock_file (Some (py_str (pid self))) (set_dir_exists true (fs w))) w.

(** The same world without the lock file. *)
Definition without_lock_file (w : World) : World :=
  set_fs (set_lock_file None (fs w)) w.

(** What [acquire] amounts to when it finds no previous owner: it goes from
    reading the lock file straight to [_write_lock]. *)
Definition write_directly (self : McpServerLock) : M unit :=
  _write_lock self ;;
  log Info (AcquiredLock (pid self)).

(** The world in which [acquire] calls [_kill_process]: the one the liveness
    probe leaves. *)
Definition after_probe (self : McpServerLock) (p : Z) (w : World) : World :=
  world_of (_process_exists self p w).

(** Termination succeeds: called after the probe, [_kill_process] returns
    [True]. *)
Definition termination_succeeds (self : McpServerLock) (p : Z) (w : World) : Prop :=
  exists w2 tr2, _kill_process self p (after_probe self p w) = Ret true w2 tr2.

(** A termination signal sent to [p] raised an [OSError] during the run. *)
Definition termination_signal_failed (p : Z) (tr : list Event) : Prop :=
  exists sig e, is_termination_signal sig = true /\ is_OSError e = true /\
                In (EvKill p sig (Some e)) tr.


(** [p] is a process identifier of a running process. *)
Definition live (w : World) (p : Z) : Prop := 0 < p /\ is_Some (procs w !! p).

(** What [acquire] does once the previous owner is out of the way: it removes
    the old record and writes its own. *)
Definition take_over (self : McpServerLock) : M unit :=
  _remove_lock self ;; write_directly self.

(** How a run ended, without the world and the events. *)
Inductive Outcome (A : Type) :=
| Returned (a : A)
| Raised (e : Exn)
| Killed.
Arguments Returned {A} a.
Arguments Raised {A} e.
Arguments Killed {A}.

Definition outcome {A} (r : Result A) : Outcome A :=
  match r with
  | Ret a _ _ => Returned a
  | Raise e _ _ => Raised e
  | Died _ _ => Killed
  end.

(** The log of [_read_lock]: one warning when the file is there and gives no
    identifier. *)
Definition read_trace (w : World) : list Event :=
  match lock_file (fs w), recorded_pid w with
  | Some _, None => [EvLog Warning InvalidLockFileContent]
  | _, _ => []
  end.

(** The world and the log that [_remove_lock] leaves. *)
Definition removed (w : World) : World :=
  match lock_file (fs w) with
  | Some _ => if unlink_fails (fs w) then w else without_lock_file w
  | None => w
  end.

Definition remove_trace (w : World) : list Event :=
  match lock_file (fs w) with
  | Some _ =>
      if unlink_fails (fs w) then [EvLog Warning FailedToRemoveLockFile]
      else [EvLog Debug RemovedLockFile]
  | None => []
  end.

(** A process identifier: positive and in the range of [pid_t]. *)
Definition is_pid (p : Z) : Prop := 0 < p < 2 ^ 31.

(** The error of the null signal sent to the process identifier [p], [None]
    when the probe finds the process. *)
Definition probe_error (w : World) (p : Z) : option Exn :=
  match procs w !! p with
  | None => Some (KillError ESRCH)
  | Some c => if may_signal w p c then None else Some (KillError EPERM)
  end.

(** If [p] runs, the caller may signal it. *)
Definition signalable (w : World) (p : Z) : Prop :=
  forall c, procs w !! p = Some c -> may_signal w p c = true.

(** The world once the process [p] is gone. *)
Definition without_proc (p : Z) (w : World) : World := set_procs (delete p (procs w)) w.

(** ** Frame conditions *)

(** Every run of [m] relates the world it starts in to the world it ends in. *)
Definition preserves {A} (R : relation World) (m : M A) : Prop :=
  forall w, R w (world_of (m w)).

(** The file system is untouched. *)
Definition same_files : relation World :=
  fun w w' => fs w' = fs w /\ getpid w' = getpid w.

(** What the operating system refuses is the same before and after. *)
Definition same_conditions : relation World :=
  fun w w' => getpid w' = getpid w /\
    mkdir_fails (fs w') = mkdir_fails (fs w) /\ read_fails (fs w') = read_fails (fs w) /\
    write_fails (fs w') = write_fails (fs w) /\ unlink_fails (fs w') = unlink_fails (fs w).

(** ** The paths of a run *)

(** How a call of [os.kill] can end.  A signal that is delivered leaves the
    file system alone and the caller running; a refused call only lets time
    pass; a number outside [pid_t] is refused before any system call; and a
    termination signal may end the caller itself. *)
Inductive KillOutcome (p : Z) (sig : Signal) (w : World) : Result unit -> Prop :=
| KillDelivered w' :
    in_pid_t p = true -> same_files w w' ->
    (forall c, procs w !! getpid w = Some c -> procs w' !! getpid w = Some c) ->
    KillOutcome p sig w (Ret tt w' [EvKill p sig None])
| KillRefused e :
    in_pid_t p = true ->
    KillOutcome p sig w (Raise (KillError e) (tick w) [EvKill p sig (Some (KillError e))])
| KillOverflow :
    in_pid_t p = false ->
    KillOutcome p sig w (Raise OverflowError w [EvKill p sig (Some OverflowError)])
| KillSelf w' :
    in_pid_t p = true -> is_termination_signal sig = true ->
    KillOutcome p sig w (Died w' [EvKill p sig None]).

(** The ways in which [_kill_process] ends, on any argument. *)
Inductive KillProcessRun (p : Z) (w : World) : Result bool -> Prop :=
| KpOverflow :
    in_pid_t p = false ->
    KillProcessRun p w
      (Raise OverflowError w [EvLog Info (SendingSigterm p); EvKill p SIGTERM (Some OverflowError)])
| KpTermRefused e :
    KillProcessRun p w
      (Ret false (tick w)
         [EvLog Info (SendingSigterm p); EvKill p SIGTERM (Some (KillError e));
          EvLog Warning (FailedToKill p)])
| KpTermSelf w' :
    KillProcessRun p w (Died w' [EvLog Info (SendingSigterm p); EvKill p SIGTERM None])
| KpGone w1 e :
    os_kill p SIGTERM w = Ret tt w1 [EvKill p SIGTERM None] ->
    KillProcessRun p w
      (Ret true (tick (tick w1))
         [EvLog Info (SendingSigterm p); EvKill p SIGTERM None; EvSleep 1;
          EvKill p SIG0 (Some (KillError e)); EvLog Info (SuccessfullyTerminated p)])
| KpKilled w1 w3 :
    os_kill p SIGTERM w = Ret tt w1 [EvKill p SIGTERM None] ->
    os_kill p SIGKILL (tick (tick w1)) = Ret tt w3 [EvKill p SIGKILL None] ->
    KillProcessRun p w
      (Ret true w3
         [EvLog Info (SendingSigterm p); EvKill p SIGTERM None; EvSleep 1;
          EvKill p SIG0 None; EvLog Warning (NoResponseSendingSigkill p);
          EvKill p SIGKILL None; EvLog Info (SuccessfullyTerminated p)])
| KpKillRefused w1 e :
    os_kill p SIGTERM w = Ret tt w1 [EvKill p SIGTERM None] ->
    KillProcessRun p w
      (Ret false (tick (tick (tick w1)))
         [EvLog Info (SendingSigterm p); EvKill p SIGTERM None; EvSleep 1;
          EvKill p SIG0 None; EvLog Warning (NoResponseSendingSigkill p);
          EvKill p SIGKILL (Some (KillError e)); EvLog Warning (FailedToKill p)])
| KpKillSelf w1 w3 :
    os_kill p SIGTERM w = Ret tt w1 [EvKill p SIGTERM None] ->
    KillProcessRun p w
      (Died w3
         [EvLog Info (SendingSigterm p); EvKill p SIGTERM None; EvSleep 1;
          EvKill p SIG0 None; EvLog Warning (NoResponseSendingSigkill p);
          EvKill p SIGKILL None]).

(** The paths through [acquire]. *)
Inductive AcquirePath (self : McpServerLock) (w : World) : Result unit -> Prop :=
| AcqNoOwner :
    truthy (recorded_pid w) = false ->
    AcquirePath self w
      (prepend (EvLog Debug AcquiringLock :: read_trace w) (write_directly self w))
| AcqOverflow p :
    recorded_pid w = Some p -> in_pid_t p = false ->
    AcquirePath self w
      (Raise OverflowError w [EvLog Debug AcquiringLock; EvKill p SIG0 (Some OverflowError)])
| AcqStale p e :
    recorded_pid w = Some p -> p <> 0 -> in_pid_t p = true ->
    _process_exists self p w = Ret false (tick w) [EvKill p SIG0 (Some (KillError e))] ->
    AcquirePath self w
      (prepend [EvLog Debug AcquiringLock; EvKill p SIG0 (Some (KillError e));
                EvLog Info (RemovingStaleLock p)]
         (take_over self (tick w)))
| AcqLive p :
    recorded_pid w = Some p -> p <> 0 -> in_pid_t p = true ->
    _process_exists self p w = Ret true (tick w) [EvKill p SIG0 None] ->
    AcquirePath self w
      (prepend [EvLog Debug AcquiringLock; EvKill p SIG0 None;
                EvLog Warning (FoundRunningServer p)]
         match _kill_process self p (tick w) with
         | Ret true w2 tr2 => prepend tr2 (take_over self w2)
         | Ret false w2 tr2 => Raise (McpLockError (CouldNotTerminate p)) w2 tr2
         | Raise e w2 tr2 => Raise e w2 tr2
         | Died w2 tr2 => Died w2 tr2
         end).

(** The caller is the same process and is still running. *)
Definition keeps_caller (w w' : World) : Prop :=
  getpid w' = getpid w /\
  forall c, procs w !! getpid w = Some c -> procs w' !! getpid w = Some c.

(** The same machine when process [p] is the one that runs. *)
Definition as_caller (p : Z) (w : World) : World := mkWorld p (procs w) (fs w).

(** ** Sample worlds

    The caller is process 100; when there is a previous server it is process
    4242.  [999999] is the identifier the test suite uses for a process that
    does not run. *)

Definition the_caller (on_sigterm : TermResponse) : Proc := mkProc 100 true on_sigterm None.

Definition a_server (may_be_signalled : bool) (on_sigterm : TermResponse)
    (exits : option nat) : Proc :=
  mkProc 4242 may_be_signalled on_sigterm exits.

Definition alone : gmap Z Proc := {[ 100 := the_caller TermExits ]}.

Definition with_server (server : Proc) : gmap Z Proc :=
  <[ 4242 := server ]> alone.

(** A directory in which every operation succeeds. *)
Definition healthy (content : option string) : FileSystem :=
  mkFS true content false false false false.

(** A directory in which the caller may not write: the lock file can be
    neither written nor deleted. *)
Definition read_only (content : option string) : FileSystem :=
  mkFS true content false false true true.

(** A directory in which the caller may not write, with a lock file of the
    caller's: the file can be overwritten but not deleted. *)
Definition undeletable (content : option string) : FileSystem :=
  mkFS true content false false false true.

(** No directory yet. *)
Definition w_missing_dir : World := mkWorld 100 alone (mkFS false None false false false false).
Definition w_no_lock_read_only : World := mkWorld 100 alone (read_only None).
Definition w_stale : World := mkWorld 100 alone (healthy (Some "999999")).
Definition w_stale_read_only : World := mkWorld 100 alone (read_only (Some "999999")).
Definition w_corrupt_undeletable : World := mkWorld 100 alone (undeletable (Some "not-a-pid")).
Definition w_own_pid : World := mkWorld 100 alone (healthy (Some "100")).
Definition w_own_pid_stays : World :=
  mkWorld 100 {[ 100 := the_caller TermStays ]} (healthy (Some "100")).
Definition w_live : World :=
  mkWorld 100 (with_server (a_server true TermStays None)) (healthy (Some "4242")).
Definition w_live_read_only : World :=
  mkWorld 100 (with_server (a_server true TermStays None)) (read_only (Some "4242")).
(** The server exits on its own right after the liveness probe. *)
Definition w_exiting : World :=
  mkWorld 100 (with_server (a_server true TermStays (Some 0%nat))) (healthy (Some "4242")).
(** The server belongs to another user. *)
Definition w_foreign : World :=
  mkWorld 100 (with_server (a_server false TermStays None)) (healthy (Some "4242")).
(** The lock file holds a number that is no [pid_t]. *)
Definition w_huge : World := mkWorld 100 alone (healthy (Some "99999999999")).
(** The lock file addresses every process. *)
Definition w_minus_one : World :=
  mkWorld 100 (with_server (a_server true TermExits None)) (healthy (Some "-1")).

(** A record as [echo] or an editor leaves it: white space around the number. *)
Definition newline : string := String "010"%char "".
Definition w_newline : World :=
  mkWorld 100 alone (healthy (Some (" " +:+ "4242" +:+ newline))).

(** A third process, which has nothing to do with the lock. *)
Definition bystander : Proc := mkProc 7 true TermExits None.
Definition w_bystander : World :=
  mkWorld 100 (<[ 7 := bystander ]> (with_server (a_server true TermStays None)))
    (healthy (Some "4242")).

(** The first server, process 4242, is the one that runs; process 100 is
    there to start a second server later. *)
Definition w_first : World :=
  mkWorld 4242 (with_server (a_server true TermStays None)) (healthy None).

Definition the_lock (w : World) : McpServerLock := McpServerLock_init ".agent-memory" w.

(** ** Tactics *)

(** Brings the events of nested runs into one list. *)
Ltac norm_trace := repeat (progress cbn [app prepend] || rewrite <- app_assoc || rewrite app_nil_r).

(** * Agent controls: [fork_extensions] and [project_context]

    Both modules read a file [agent-controls.json] and decide from it whether
    an agent may read or write its memory.  The file is represented by what
    opening and loading it gives: it is missing, loading it raises, or
    [json.load] returns a value. *)

Module Py.

(** The values that [json.load] returns: [None], [bool], [int], [float],
    [str], [list] and [dict] with string keys.  A [float] is an IEEE 754
    number. *)
#[local] Set Warnings "-register-all".
Inductive Value :=
| VNone
| VBool (b : bool)
| VInt (n : Z)
| VFloat (f : spec_float)
| VStr (s : string)
| VList (l : list Value)
| VDict (d : gmap string Value).
#[local] Set Warnings "register-all".

(** The exceptions of [open] and [json.load]. *)
Inductive LoadError :=
| ErrOS                (* [OSError]: the file cannot be opened or read *)
| ErrUnicodeDecode     (* [UnicodeDecodeError]: the bytes are no text *)
| ErrJSONDecode        (* [json.JSONDecodeError]: the text is no JSON *)
| ErrRecursion.        (* [RecursionError]: the JSON is nested too deep *)

Inductive FileState :=
| Missing
| Unloadable (e : LoadError)
| Loaded (v : Value).

Inductive PyExn :=
| PermissionError (msg : string)
| AttributeError
| TypeError
| LoadFailure (e : LoadError).

(** [bool(v)] *)
Definition truth (v : Value) : bool :=
  match v with
  | VNone => false
  | VBool b => b
  | VInt n => negb (n =? 0)
  | VFloat f => match f with S754_zero _ => false | _ => true end
  | VStr s => negb (String.eqb s "")
  | VList l => match l with [] => false | _ => true end
  | VDict d => negb (bool_decide (dom d = (∅ : gset string)))
  end.

(** [key in v] for a string [key]: a key of a [dict], an element of a
    [list], a substring of a [str]; the other values are not iterable. *)
Definition contains (key : string) (v : Value) : PyExn + bool :=
  match v with
  | VDict d => inr (bool_decide (is_Some (d !! key)))
  | VList l => inr (existsb (fun x => match x with VStr s => String.eqb s key | _ => false end) l)
  | VStr s => inr (bool_decide (is_Some (String.index 0 key s)))
  | VNone | VBool _ | VInt _ | VFloat _ => inl TypeError
  end.

(** [v.get(key, default)]: only a [dict] has the method. *)
Definition get (v : Value) (key : string) (dflt : Value) : PyExn + Value :=
  match v with
  | VDict d => inr (default dflt (d !! key))
  | _ => inl AttributeError
  end.

(** [s[n:]] *)
Fixpoint drop_chars (n : nat) (s : string) : string :=
  match n, s with
  | O, _ => s
  | S n', String _ s' => drop_chars n' s'
  | S _, EmptyString => EmptyString
  end.

(** A run: the lines it logs, and the exception it raises or the value it
    returns. *)
Definition Run (L A : Type) : Type := list L * (PyExn + A).

Definition ret {L A} (a : A) : Run L A := ([], inr a).

Definition raise {L A} (e : PyExn) : Run L A := ([], inl e).

Definition say {L} (line : L) : Run L unit := ([line], inr tt).

Definition lift {L A} (r : PyExn + A) : Run L A := ([], r).

Definition bind {L A B} (m : Run L A) (k : A -> Run L B) : Run L B :=
  match m with
  | (l, inl e) => (l, inl e)
  | (l, inr a) => let '(l', r) := k a in (l ++ l', r)
  end.

(** What the caller of a run sees. *)
Definition result {L A} (m : Run L A) : PyExn + A := m.2.

(** What a check of the agent controls comes to. *)
Inductive Decision :=
| Allow
| DenyDisabled
| DenyPaused
| Fail (e : PyExn).

End Py.

Declare Scope run_scope.
Delimit Scope run_scope with run.
Notation "x <- m ;; k" := (Py.bind m (fun x => k))
  (at level 100, m at next level, k at level 200, right associativity) : run_scope.
Notation "m ;; k" := (Py.bind m (fun _ => k))
  (at level 100, k at level 200, right associativity) : run_scope.

Module fork_extensions.
Import Py.
#[local] Open Scope run_scope.

(** [class OperationType(str, Enum)] *)
Inductive OperationType := READ | WRITE.

Definition is_write (operation : OperationType) : bool :=
  match operation with WRITE => true | READ => false end.

(** The [logger] calls of the module (paths are left out). *)
Inductive LogLine :=
| NoAgentControlsFound                      (* trace *)
| LoadedAgentControls (controls : Value)    (* trace *)
| FailedToReadAgentControls (e : LoadError) (* warning *)
| AgentAllowed (project_name : string) (operation : OperationType) (enabled paused : Value).

(** [read_agent_controls(project_path)], on the state of the file
    [project_path / ".memory-mcp" / "agent-controls.json"]. *)
Definition read_agent_controls (controls_file : FileState) : Run LogLine Value :=
  match controls_file with
  | Missing => say NoAgentControlsFound ;; ret (VDict ∅)
  | Loaded controls => say (LoadedAgentControls controls) ;; ret controls
  | Unloadable e => say (FailedToReadAgentControls e) ;; ret (VDict ∅)
  end.

Definition disabled_message (project_name : string) : string :=
  "Agent '" +:+ project_name +:+ "' is disabled. Enable it in .memory-mcp/agent-controls.json".

Definition paused_message (project_name : string) : string :=
  "Agent '" +:+ project_name +:+
  "' is paused (read-only). Unpause it in .memory-mcp/agent-controls.json".

Definition check_agent_controls (project_name : string) (controls_file : FileState)
    (operation : OperationType) : Run LogLine unit :=
  controls <- read_agent_controls controls_file ;;
  no_controls <- (if negb (truth controls) then ret true
                  else has <- lift (contains "agents" controls) ;; ret (negb has)) ;;
  if no_controls : bool then ret tt
  else
    agents <- lift (get controls "agents" (VDict ∅)) ;;
    agent_config <- lift (get agents project_name (VDict ∅)) ;;
    enabled <- lift (get agent_config "enabled" (VBool true)) ;;
    if negb (truth enabled) then raise (PermissionError (disabled_message project_name))
    else
      paused <- lift (get agent_config "paused" (VBool false)) ;;
      if truth paused && is_write operation
      then raise (PermissionError (paused_message project_name))
      else
        enabled' <- lift (get agent_config "enabled" (VBool true)) ;;
        paused' <- lift (get agent_config "paused" (VBool false)) ;;
        say (AgentAllowed project_name operation enabled' paused').

(** How the module reports a decision. *)
Definition answer (project_name : string) (decision : Decision) : PyExn + unit :=
  match decision with
  | Allow => inr tt
  | DenyDisabled => inl (PermissionError (disabled_message project_name))
  | DenyPaused => inl (PermissionError (paused_message project_name))
  | Fail e => inl e
  end.

End fork_extensions.

Module project_context.
Import Py.
#[local] Open Scope run_scope.

(** [class OperationType(Enum)] *)
Inductive OperationType := READ | WRITE.

Definition is_write (operation : OperationType) : bool :=
  match operation with WRITE => true | READ => false end.

Inductive LogLine :=
| FailedToReadAgentControls (e : LoadError). (* warning *)

(** [except (json.JSONDecodeError, OSError)] *)
Definition is_caught (e : LoadError) : bool :=
  match e with
  | ErrOS | ErrJSONDecode => true
  | ErrUnicodeDecode | ErrRecursion => false
  end.

(** [read_agent_controls()], on the value of the environment variable
    [BASIC_MEMORY_CONFIG_DIR] ([None] when it is not set) and the state of
    the file [agent-controls.json] in that directory. *)
Definition read_agent_controls (BASIC_MEMORY_CONFIG_DIR : option string)
    (controls_file : FileState) : Run LogLine Value :=
  let config_dir := default "" BASIC_MEMORY_CONFIG_DIR in
  if String.eqb config_dir "" then ret (VDict ∅)
  else
    match controls_file with
    | Missing => ret (VDict ∅)
    | Loaded controls => ret controls
    | Unloadable e =>
        if is_caught e then say (FailedToReadAgentControls e) ;; ret (VDict ∅)
        else raise (LoadFailure e)
    end.

(** ["agent-build" -> "build"] *)
Definition agent_name_of (project_name : string) : string :=
  if String.prefix "agent-" project_name then drop_chars 6 project_name else project_name.

Definition nl : string := String "010"%char EmptyString.

Definition disabled_message (agent_name : string) : string :=
  "# Memory Disabled" +:+ nl +:+ nl +:+
  "Agent '" +:+ agent_name +:+ "' memory is **disabled**." +:+ nl +:+ nl +:+
  "All memory operations are blocked. To re-enable:" +:+ nl +:+
  "1. Open the VSCode extension sidebar" +:+ nl +:+
  "2. Find agent '" +:+ agent_name +:+ "' in the Agents Memories section" +:+ nl +:+
  "3. Click the 'Enable' button".

Definition paused_message (agent_name : string) : string :=
  "# Memory Paused" +:+ nl +:+ nl +:+
  "Agent '" +:+ agent_name +:+ "' memory is **paused** (read-only mode)." +:+ nl +:+ nl +:+
  "You can still search and read memories, but writing is blocked." +:+ nl +:+ nl +:+
  "To resume writing:" +:+ nl +:+
  "1. Open the VSCode extension sidebar" +:+ nl +:+
  "2. Find agent '" +:+ agent_name +:+ "' in the Agents Memories section" +:+ nl +:+
  "3. Click the 'Resume' button".

Definition default_controls : Value :=
  VDict {[ "enabled" := VBool true; "paused" := VBool false ]}.

Definition check_agent_controls (BASIC_MEMORY_CONFIG_DIR : option string)
    (controls_file : FileState) (project_name : string) (operation : OperationType) :
    Run LogLine unit :=
  controls <- read_agent_controls BASIC_MEMORY_CONFIG_DIR controls_file ;;
  agents <- lift (get controls "agents" (VDict ∅)) ;;
  let agent_name := agent_name_of project_name in
  agent_controls <- lift (get agents agent_name default_controls) ;;
  enabled <- lift (get agent_controls "enabled" (VBool true)) ;;
  paused <- lift (get agent_controls "paused" (VBool false)) ;;
  if negb (truth enabled) then raise (PermissionError (disabled_message agent_name))
  else if truth paused && is_write operation
       then raise (PermissionError (paused_message agent_name))
       else ret tt.

(** How the module reports a decision. *)
Definition answer (project_name : string) (decision : Decision) : PyExn + unit :=
  match decision with
  | Allow => inr tt
  | DenyDisabled => inl (PermissionError (disabled_message (agent_name_of project_name)))
  | DenyPaused => inl (PermissionError (paused_message (agent_name_of project_name)))
  | Fail e => inl e
  end.

End project_context.

(** * Project enforcement: [server.enforce_project_schemas]

    The tools module is represented by its list [__all__], the objects that
    its names are bound to, and the store of these objects.  An object is
    known by its reference, so that two names bound to one object share it.
    Of an object only the attributes [name] and [parameters] matter; the
    schema under [parameters] is a value of the object's own (no dict or list
    is shared between two objects). *)

Module server.
Import Py.

Definition EXEMPT_TOOLS : gset string :=
  {[ "recent_activity"; "list_memory_projects"; "create_memory_project"; "delete_project" ]}.

(** An object of the tools module: [None] stands for an attribute that the
    object does not have; the attribute [name] is a string. *)
Record Tool := mkTool {
  name : option string;
  parameters : option Value
}.

Definition Ref := nat.

Record ToolsModule := mkToolsModule {
  __all__ : list string;
  (* the names that are bound to an object other than [None] *)
  bound : gmap string Ref
}.

(** The store: the objects, and the lines logged so far. *)
Inductive LogLine :=
| EnforcedRequiredProject (tool_name : string). (* debug *)

Record Store := mkStore {
  objects : gmap Ref Tool;
  logged : list LogLine
}.

(** A reference that the store does not hold is an object without the two
    attributes. *)
Definition deref (s : Store) (r : Ref) : Tool :=
  default (mkTool None None) (objects s !! r).

(** A computation on the store: the exception it raises or the value it
    returns, and the store it leaves in both cases. *)
Definition St (A : Type) : Type := Store -> Store * (PyExn + A).

Definition st_ret {A} (a : A) : St A := fun s => (s, inr a).

Definition st_bind {A B} (m : St A) (k : A -> St B) : St B := fun s =>
  match m s with
  | (s1, inr a) => k a s1
  | (s1, inl e) => (s1, inl e)
  end.

Definition st_lift {A} (r : PyExn + A) : St A := fun s => (s, r).

Definition logger_debug (line : LogLine) : St unit := fun s =>
  (mkStore (objects s) (logged s ++ [line]), inr tt).

(** Assignment under a key of the dict [tool_obj.parameters]. *)
Definition set_item (r : Ref) (key : string) (v : Value) : St unit := fun s =>
  match deref s r with
  | mkTool n (Some (VDict params)) =>
      (mkStore (<[ r := mkTool n (Some (VDict (<[ key := v ]> params))) ]> (objects s)) (logged s),
       inr tt)
  | _ => (s, inl TypeError)
  end.

(** [tool_obj.parameters.setdefault(key, default)] *)
Definition setdefault (r : Ref) (params : gmap string Value) (key : string) (dflt : Value) :
    St Value :=
  match params !! key with
  | Some v => st_ret v
  | None => st_bind (set_item r key dflt) (fun _ => st_ret dflt)
  end.

(** [required.append(item)], [required] being the object under the key
    ["required"] of [tool_obj.parameters]: only a list has the method. *)
Definition append (r : Ref) (required : Value) (item : Value) : St unit :=
  match required with
  | VList l => set_item r "required" (VList (l ++ [item]))
  | _ => st_lift (inl AttributeError)
  end.

Declare Scope st_scope.
Delimit Scope st_scope with st.
Notation "x <- m ;; k" := (st_bind m (fun x => k))
  (at level 100, m at next level, k at level 200, right associativity) : st_scope.
Notation "m ;; k" := (st_bind m (fun _ => k))
  (at level 100, k at level 200, right associativity) : st_scope.
#[local] Open Scope st_scope.

(** The body of the loop, for one name of [__all__]; [patched] is the
    counter. *)
Definition enforce_tool (tools_module : ToolsModule) (patched : Z) (attr_name : string) : St Z :=
  fun s =>
  match bound tools_module !! attr_name with
  | None => st_ret patched s
  | Some tool_obj =>
      match parameters (deref s tool_obj) with
      | Some (VDict params) =>
          (props <- st_lift (get (VDict params) "properties" (VDict ∅)) ;;
           has_project <- st_lift (contains "project" props) ;;
           if negb has_project then st_ret patched
           else
             let tool_name := default attr_name (name (deref s tool_obj)) in
             if bool_decide (tool_name ∈ EXEMPT_TOOLS) then st_ret patched
             else
               required <- setdefault tool_obj params "required" (VList []) ;;
               is_required <- st_lift (contains "project" required) ;;
               if negb is_required then
                 append tool_obj required (VStr "project") ;;
                 logger_debug (EnforcedRequiredProject tool_name) ;;
                 st_ret (patched + 1)
               else st_ret patched) s
      | _ => st_ret patched s
      end
  end.

(** [for attr_name in tools_module.__all__: ...] *)
Fixpoint for_each (tools_module : ToolsModule) (names : list string) (patched : Z) : St Z :=
  match names with
  | [] => st_ret patched
  | attr_name :: rest =>
      patched' <- enforce_tool tools_module patched attr_name ;;
      for_each tools_module rest patched'
  end.

Definition enforce_project_schemas (tools_module : ToolsModule) : St Z :=
  for_each tools_module (__all__ tools_module) 0.

(** What the body of the loop does to the object that [attr_name] is bound
    to: it raises, it leaves the object as it is ([None]), or it replaces it
    by the one whose schema requires ["project"]. *)
Definition patch (attr_name : string) (t : Tool) : PyExn + option Tool :=
  match parameters t with
  | Some (VDict params) =>
      match contains "project" (default (VDict ∅) (params !! "properties")) with
      | inl e => inl e
      | inr false => inr None
      | inr true =>
          if bool_decide (default attr_name (name t) ∈ EXEMPT_TOOLS) then inr None
          else
            let required := default (VList []) (params !! "required") in
            match contains "project" required with
            | inl e => inl e
            | inr true => inr None
            | inr false =>
                match required with
                | VList l =>
                    inr (Some (mkTool (name t)
                                 (Some (VDict (<[ "required" := VList (l ++ [VStr "project"]) ]>
                                                 params)))))
                | _ => inl AttributeError
                end
            end
      end
  | _ => inr None
  end.

(** The store after the object at [r] has been replaced and the line
    logged. *)
Definition patched_store (s : Store) (r : Ref) (t' : Tool) (tool_name : string) : Store :=
  mkStore (<[ r := t' ]> (objects s)) (logged s ++ [EnforcedRequiredProject tool_name]).

(** From one store to a later one: every object is as it was, or it has
    been patched. *)
Definition evolves (s s' : Store) : Prop :=
  forall r, deref s' r = deref s r
            \/ exists attr_name, patch attr_name (deref s r) = inr (Some (deref s' r)).

(** A tools module for the examples: a tool with a [required] list, an
    exempt tool, a tool without [required], a function, and a name of
    [__all__] that is not bound.  [alias] is a second name of the first
    tool. *)
Definition schema (properties : list string) (required : option (list string)) : Value :=
  let props : gmap string Value := list_to_map ((fun p => (p, VDict ∅)) <$> properties) in
  match required with
  | Some l => VDict {[ "properties" := VDict props; "required" := VList (VStr <$> l) ]}
  | None => VDict {[ "properties" := VDict props ]}
  end.

Definition sample_tools : ToolsModule :=
  mkToolsModule ["write_note"; "recent_activity"; "search"; "helper"; "missing"; "alias"]
    {[ "write_note" := 0%nat; "recent_activity" := 1%nat; "search" := 2%nat;
       "helper" := 3%nat; "alias" := 0%nat ]}.

Definition sample_store : Store :=
  mkStore
    {[ 0%nat := mkTool (Some "write_note") (Some (schema ["title"; "project"] (Some ["title"])));
       1%nat := mkTool (Some "recent_activity") (Some (schema ["project"] None));
       2%nat := mkTool (Some "search") (Some (schema ["query"; "project"] None));
       3%nat := mkTool None None ]}
    [].

End server.

(** * Properties *)

(** ** Text *)

Lemma isdigit_not_space c : isdigit c = true -> isspace c = false.
Proof. destruct c as [[] [] [] [] [] [] [] []]; vm_compute; congruence. Qed.

Lemma rstrip_no_space s : forall_chars (fun c => negb (isspace c)) s = true -> rstrip s = s.
Proof.
  induction s as [|c s IH]; simpl; [reflexivity|].
  intros [Hc Hs]%andb_prop. rewrite (IH Hs).
  destruct s; [|reflexivity].
  apply negb_true_iff in Hc. now rewrite Hc.
Qed.

Lemma lstrip_no_space s : forall_chars (fun c => negb (isspace c)) s = true -> lstrip s = s.
Proof.
  destruct s as [|c s]; simpl; [reflexivity|].
  intros [Hc _]%andb_prop. apply negb_true_iff in Hc. now rewrite Hc.
Qed.

Lemma strip_no_space s : forall_chars (fun c => negb (isspace c)) s = true -> strip s = s.
Proof. intros H. unfold strip. rewrite (lstrip_no_space _ H). now apply rstrip_no_space. Qed.

(** [strip] leaves nothing to strip. *)
Lemma lstrip_head s c s' : lstrip s = String c s' -> isspace c = false.
Proof.
  induction s as [|a s IH]; simpl; [discriminate|].
  destruct (isspace a) eqn:Ha; [exact IH|]. now intros [= <- _].
Qed.

Lemma rstrip_lstrip_fixed s : lstrip s = s -> lstrip (rstrip s) = rstrip s.
Proof.
  destruct s as [|c s]; [reflexivity|]. intros H.
  pose proof (lstrip_head _ _ _ H) as Hc. simpl.
  destruct (rstrip s); rewrite ?Hc; simpl; now rewrite Hc.
Qed.

Lemma lstrip_idempotent s : lstrip (lstrip s) = lstrip s.
Proof.
  induction s as [|c s IH]; simpl; [reflexivity|].
  destruct (isspace c) eqn:Hc; [exact IH|]. simpl. now rewrite Hc.
Qed.

Lemma rstrip_idempotent s : rstrip (rstrip s) = rstrip s.
Proof.
  induction s as [|c s IH]; simpl; [reflexivity|].
  destruct (rstrip s) as [|a r] eqn:Hr.
  - destruct (isspace c) eqn:Hc; simpl; [reflexivity|]. now rewrite Hc.
  - change (rstrip (String c (String a r))) with
      (match rstrip (String a r) with
       | EmptyString => if isspace c then EmptyString else String c EmptyString
       | r' => String c r' end).
    now rewrite IH.
Qed.

Lemma strip_idempotent s : strip (strip s) = strip s.
Proof.
  unfold strip. rewrite (rstrip_lstrip_fixed (lstrip s) (lstrip_idempotent s)).
  apply rstrip_idempotent.
Qed.

(** [int] has no white space left to skip after [strip]. *)
Lemma py_int_strip s : py_int (strip s) = parse_signed (strip s).
Proof. unfold py_int. now rewrite strip_idempotent. Qed.

Lemma digits_of_uint d :
  forall_chars isdigit (NilEmpty.string_of_uint d) = true.
Proof. induction d; simpl; auto. Qed.

Lemma forall_chars_impl (P Q : ascii -> bool) s :
  (forall c, P c = true -> Q c = true) ->
  forall_chars P s = true -> forall_chars Q s = true.
Proof.
  intros HPQ. induction s as [|c s IH]; simpl; [auto|].
  intros [Hc Hs]%andb_prop. rewrite (HPQ _ Hc), (IH Hs). reflexivity.
Qed.

Lemma digits_acc_pos d acc :
  digits_acc false (Z.pos acc) (NilEmpty.string_of_uint d) = Some (Z.pos (Pos.of_uint_acc d acc)).
Proof.
  revert acc. induction d; intros acc; simpl; [reflexivity| ..];
    match goal with
    | |- digits_acc false ?z _ = Some (Z.pos (Pos.of_uint_acc _ ?q)) =>
        replace z with (Z.pos q) by (unfold digit_value; simpl; lia)
    end; apply IHd.
Qed.

Lemma digits_acc_zero d :
  digits_acc false 0 (NilEmpty.string_of_uint d) = Some (Z.of_uint d).
Proof.
  unfold Z.of_uint.
  induction d; simpl; [reflexivity | exact IHd | ..];
    match goal with
    | |- digits_acc false ?z _ = _ =>
        let p := eval vm_compute in (Z.to_pos z) in change z with (Z.pos p)
    end; rewrite digits_acc_pos; reflexivity.
Qed.

Lemma parse_unsigned_uint d :
  d <> Nil -> parse_unsigned (NilEmpty.string_of_uint d) = Some (Z.of_uint d).
Proof.
  intros Hd. rewrite <- digits_acc_zero.
  destruct d; [congruence | reflexivity ..].
Qed.

Lemma string_of_uint_nonnil d :
  d <> Nil -> NilZero.string_of_uint d = NilEmpty.string_of_uint d.
Proof. destruct d; [congruence | reflexivity ..]. Qed.

Lemma parse_signed_digits d :
  d <> Nil ->
  parse_signed (NilEmpty.string_of_uint d) = parse_unsigned (NilEmpty.string_of_uint d).
Proof. destruct d; [congruence | reflexivity ..]. Qed.

Lemma parse_signed_int (i : Decimal.int) :
  match i with Pos d | Neg d => d <> Nil end ->
  parse_signed (NilZero.string_of_int i) = Some (Z.of_int i).
Proof.
  destruct i as [d|d]; intros Hd; unfold NilZero.string_of_int;
    rewrite (string_of_uint_nonnil d Hd).
  - rewrite (parse_signed_digits d Hd). now apply parse_unsigned_uint.
  - change (parse_signed (String "-" (NilEmpty.string_of_uint d)))
      with (Z.opp <$> parse_unsigned (NilEmpty.string_of_uint d)).
    rewrite (parse_unsigned_uint d Hd). reflexivity.
Qed.

Lemma py_str_no_space n : forall_chars (fun c => negb (isspace c)) (py_str n) = true.
Proof.
  assert (forall d, forall_chars (fun c => negb (isspace c)) (NilZero.string_of_uint d) = true) as Hu.
  { intros d. unfold NilZero.string_of_uint.
    assert (forall_chars (fun c => negb (isspace c)) (NilEmpty.string_of_uint d) = true) as H.
    { apply (forall_chars_impl isdigit); [|apply digits_of_uint].
      intros c Hc. now rewrite (isdigit_not_space c Hc). }
    destruct d; [reflexivity | exact H ..]. }
  unfold py_str. destruct (Z.to_int n); simpl; [apply Hu|].
  apply Hu.
Qed.

Lemma strip_py_str n : strip (py_str n) = py_str n.
Proof. apply strip_no_space, py_str_no_space. Qed.

(** Reading back what [str] printed gives the number: [int(str(n)) = n],
    also through [strip]. *)
Lemma py_int_py_str n : py_int (strip (py_str n)) = Some n.
Proof.
  rewrite py_int_strip, strip_py_str. unfold py_str.
  rewrite parse_signed_int; [now rewrite DecimalZ.of_to|].
  destruct n; simpl; [discriminate | apply DecimalPos.Unsigned.to_uint_nonnil ..].
Qed.

Example py_int_plain : py_int "4242" = Some 4242. Proof. reflexivity. Qed.
Example py_int_newline : py_int (strip (" 4242" +:+ String "010"%char "")) = Some 4242.
Proof. reflexivity. Qed.
Example py_int_signs : (py_int "-17", py_int "+17", py_int "- 17") = (Some (-17), Some 17, None).
Proof. reflexivity. Qed.
Example py_int_underscores :
  (py_int "1_000", py_int "1__0", py_int "_1", py_int "1_") = (Some 1000, None, None, None).
Proof. reflexivity. Qed.
Example py_int_not_a_pid : py_int "not-a-pid" = None. Proof. reflexivity. Qed.
Example py_int_empty : py_int "" = None. Proof. reflexivity. Qed.
Example py_int_zeros : py_int "000" = Some 0. Proof. reflexivity. Qed.
Example py_str_samples : (py_str 0, py_str 999999, py_str (-5)) = ("0", "999999", "-5").
Proof. reflexivity. Qed.

(** ** Runs *)

Lemma world_of_prepend {A} tr (r : Result A) : world_of (prepend tr r) = world_of r.
Proof. now destruct r. Qed.

Lemma trace_of_prepend {A} tr (r : Result A) : trace_of (prepend tr r) = tr ++ trace_of r.
Proof. now destruct r. Qed.

Lemma prepend_prepend {A} tr1 tr2 (r : Result A) :
  prepend tr1 (prepend tr2 r) = prepend (tr1 ++ tr2) r.
Proof. destruct r; simpl; now rewrite app_assoc. Qed.


Lemma bind_Ret_inv {A B} (m : M A) (k : A -> M B) w b w' tr :
  bind m k w = Ret b w' tr ->
  exists a w1 tr1 tr2, m w = Ret a w1 tr1 /\ k a w1 = Ret b w' tr2 /\ tr = tr1 ++ tr2.
Proof.
  unfold bind. destruct (m w) as [a w1 tr1|e w1 tr1|w1 tr1]; [|discriminate..].
  destruct (k a w1) as [b' w2 tr2| |] eqn:Hk; simpl; [|discriminate..].
  intros [= -> -> <-]. eauto 10.
Qed.

Lemma kill_calls_app tr1 tr2 : kill_calls (tr1 ++ tr2) = kill_calls tr1 ++ kill_calls tr2.
Proof. apply omap_app. Qed.

Lemma termination_calls_app tr1 tr2 :
  termination_calls (tr1 ++ tr2) = termination_calls tr1 ++ termination_calls tr2.
Proof. apply omap_app. Qed.

Lemma termination_calls_kill_calls tr : kill_calls tr = [] -> termination_calls tr = [].
Proof.
  induction tr as [|[q [] e| |] tr IH]; simpl; try discriminate; auto.
Qed.

Lemma termination_signal_failed_app p tr1 tr2 :
  termination_signal_failed p (tr1 ++ tr2) ->
  termination_signal_failed p tr1 \/ termination_signal_failed p tr2.
Proof.
  intros (sig & e & Hs & He & Hin). apply in_app_or in Hin as [Hin|Hin];
    [left|right]; exists sig, e; auto.
Qed.

Lemma termination_signal_failed_kill_calls p tr :
  termination_signal_failed p tr ->
  exists sig, is_termination_signal sig = true /\ In (p, sig) (kill_calls tr).
Proof.
  intros (sig & e & Hs & _ & Hin). exists sig. split; [assumption|].
  induction tr as [|ev tr IH]; [destruct Hin|].
  destruct Hin as [->|Hin]; [now left|].
  simpl. destruct ev; simpl; auto.
Qed.

Lemma no_termination_signal_failed p tr : kill_calls tr = [] -> ~ termination_signal_failed p tr.
Proof.
  intros H Hf. apply termination_signal_failed_kill_calls in Hf as (sig & _ & Hin).
  rewrite H in Hin. destruct Hin.
Qed.

(** ** Frame conditions

    A relation on worlds that is reflexive and transitive is kept by a
    program as soon as each of its steps keeps it. *)

Section Frame.
Context (R : relation World) `{!Reflexive R} `{!Transitive R}.

Lemma preserves_ret {A} (a : A) : preserves R (ret a).
Proof. intros w. simpl. reflexivity. Qed.

Lemma preserves_raise {A} e : preserves R (@raise A e).
Proof. intros w. simpl. reflexivity. Qed.

Lemma preserves_log lvl msg : preserves R (log lvl msg).
Proof. intros w. simpl. reflexivity. Qed.

Lemma preserves_bind {A B} (m : M A) (k : A -> M B) :
  preserves R m -> (forall a, preserves R (k a)) -> preserves R (bind m k).
Proof.
  intros Hm Hk w. unfold bind. specialize (Hm w).
  destruct (m w) as [a w1 tr1| |]; simpl in *; [|assumption..].
  rewrite world_of_prepend. etransitivity; [exact Hm | apply Hk].
Qed.

Lemma preserves_try_except {A} (body : M A) handles handler :
  preserves R body -> (forall e, preserves R (handler e)) ->
  preserves R (try_except body handles handler).
Proof.
  intros Hb Hh w. unfold try_except. specialize (Hb w).
  destruct (body w) as [a w1 tr1|e w1 tr1|]; simpl in *; [assumption| |assumption].
  destruct (handles e); simpl; [|assumption].
  rewrite world_of_prepend. etransitivity; [exact Hb | apply Hh].
Qed.
End Frame.

#[local] Instance same_files_refl : Reflexive same_files.
Proof. now intros w. Qed.

#[local] Instance same_files_trans : Transitive same_files.
Proof. intros a b c [] []. split; congruence. Qed.

#[local] Instance same_conditions_refl : Reflexive same_conditions.
Proof. intros w. repeat split. Qed.

#[local] Instance same_conditions_trans : Transitive same_conditions.
Proof. intros a b c (?&?&?&?&?) (?&?&?&?&?). repeat split; congruence. Qed.

Lemma same_files_conditions w w' : same_files w w' -> same_conditions w w'.
Proof. intros [Hf Hg]. unfold same_conditions. now rewrite Hf, Hg. Qed.

Lemma preserves_weaken {A} (R R' : relation World) (m : M A) :
  (forall w w', R w w' -> R' w w') -> preserves R m -> preserves R' m.
Proof. intros HR Hm w. apply HR, Hm. Qed.

Lemma can_write_same_files w w' : same_files w w' -> can_write_lock w' = can_write_lock w.
Proof. intros [Hf _]. unfold can_write_lock. now rewrite Hf. Qed.

(** Signals and sleeping leave the file system alone. *)
Lemma os_kill_same_files p sig : preserves same_files (os_kill p sig).
Proof.
  intros w. unfold os_kill, kill_one, kill_many.
  repeat case_match; split; reflexivity.
Qed.

Lemma time_sleep_same_files s : preserves same_files (time_sleep s).
Proof. intros w. split; reflexivity. Qed.

Lemma process_exists_same_files self p : preserves same_files (_process_exists self p).
Proof.
  apply preserves_try_except; try apply _.
  - apply preserves_bind; try apply _; [apply os_kill_same_files|intros; apply preserves_ret; apply _].
  - intros; apply preserves_ret; apply _.
Qed.

Create HintDb frame.
#[local] Hint Resolve preserves_ret preserves_raise preserves_log preserves_bind preserves_try_except
  os_kill_same_files time_sleep_same_files process_exists_same_files : frame.
#[local] Hint Extern 1 (Reflexive _) => apply _ : frame.
#[local] Hint Extern 1 (Transitive _) => apply _ : frame.

Lemma kill_process_same_files self p : preserves same_files (_kill_process self p).
Proof.
  unfold _kill_process.
  apply preserves_try_except; try apply _; intros; repeat (apply preserves_bind; try apply _; intros);
   try case_match; auto 10 with frame.
Qed.

(** ** The primitives on the lock file *)

(** [_read_lock] returns what the file records and changes nothing. *)
Lemma read_lock_run self w : _read_lock self w = Ret (recorded_pid w) w (read_trace w).
Proof.
  unfold _read_lock, read_trace, recorded_pid, content_pid, bind, try_except, lock_file_exists, lock_file_read_text, ret, raise, log.
  destruct w as [g m [d [content|] mk rd wr ul]]; simpl; [|destruct rd; reflexivity].
  destruct rd; simpl; [reflexivity|].
  destruct (py_int (strip content)); reflexivity.
Qed.

Lemma read_trace_recorded w p : recorded_pid w = Some p -> read_trace w = [].
Proof. intros H. unfold read_trace. rewrite H. now destruct (lock_file (fs w)). Qed.

Lemma kill_calls_read_trace w : kill_calls (read_trace w) = [].
Proof. unfold read_trace. now repeat case_match. Qed.

Lemma read_lock_same_files self : preserves same_files (_read_lock self).
Proof. intros w. rewrite read_lock_run. reflexivity. Qed.

(** [_write_lock] writes [str(pid)], or raises the lock error. *)
Lemma write_lock_ok self w :
  can_write_lock w = true ->
  _write_lock self w = Ret tt (written self w) [EvLog Debug (WroteLockFile (pid self))].
Proof.
  unfold can_write_lock, _write_lock, written, bind, try_except, config_dir_mkdir, lock_file_write_text, log.
  destruct w as [g m [d l mk rd wr ul]]; simpl.
  destruct d, mk, wr; simpl; try discriminate; reflexivity.
Qed.

Lemma write_lock_fails self w :
  can_write_lock w = false ->
  exists w', _write_lock self w = Raise (McpLockError FailedToWriteLockFile) w' [] /\
             lock_file (fs w') = lock_file (fs w) /\ procs w' = procs w.
Proof.
  unfold can_write_lock, _write_lock, written, bind, try_except, config_dir_mkdir, lock_file_write_text, log.
  destruct w as [g m [d l mk rd wr ul]]; simpl.
  destruct d, mk, wr; simpl; try discriminate; eauto.
Qed.

Lemma write_lock_same_conditions self : preserves same_conditions (_write_lock self).
Proof.
  intros w. destruct (can_write_lock w) eqn:Hc.
  - rewrite write_lock_ok by assumption. repeat split.
  - unfold _write_lock, bind, try_except, config_dir_mkdir, lock_file_write_text, log.
    destruct w as [g m [d l mk rd wr ul]]; simpl.
    destruct d, mk, wr; simpl; repeat split.
Qed.

Lemma recorded_pid_written self w :
  read_fails (fs w) = false -> recorded_pid (written self w) = Some (pid self).
Proof. intros H. unfold recorded_pid, content_pid. simpl. rewrite H. simpl. apply py_int_py_str. Qed.

Lemma recorded_pid_without_lock_file w : recorded_pid (without_lock_file w) = None.
Proof. unfold recorded_pid, content_pid. simpl. now destruct (read_fails (fs w)). Qed.

(** [_remove_lock] never raises. *)
Lemma remove_lock_run self w : _remove_lock self w = Ret tt (removed w) (remove_trace w).
Proof.
  unfold _remove_lock, removed, remove_trace, without_lock_file, bind, try_except, lock_file_exists, lock_file_unlink, ret, log.
  destruct w as [g m [d [content|] mk rd wr ul]]; simpl; [|reflexivity].
  destruct ul; reflexivity.
Qed.

Lemma remove_lock_same_conditions self : preserves same_conditions (_remove_lock self).
Proof.
  intros w. rewrite remove_lock_run. unfold removed. simpl.
  repeat case_match; repeat split.
Qed.

Lemma kill_calls_remove_trace w : kill_calls (remove_trace w) = [].
Proof. unfold remove_trace. now repeat case_match. Qed.

Lemma can_write_removed w : can_write_lock (removed w) = can_write_lock w.
Proof. unfold removed. now repeat case_match. Qed.

Lemma written_removed self w : written self (removed w) = written self w.
Proof. unfold removed. now repeat case_match. Qed.

#[local] Hint Resolve read_lock_same_files remove_lock_same_conditions write_lock_same_conditions
  kill_process_same_files : frame.
#[local] Hint Extern 2 (preserves same_conditions _) =>
  apply (preserves_weaken same_files same_conditions); [exact same_files_conditions|] : frame.

(** ** Writing the new record *)

Lemma write_directly_ok self w :
  can_write_lock w = true ->
  write_directly self w =
    Ret tt (written self w) [EvLog Debug (WroteLockFile (pid self)); EvLog Info (AcquiredLock (pid self))].
Proof. intros H. unfold write_directly, bind. now rewrite (write_lock_ok _ _ H). Qed.

Lemma write_directly_fails self w :
  can_write_lock w = false ->
  exists w', write_directly self w = Raise (McpLockError FailedToWriteLockFile) w' [] /\
             lock_file (fs w') = lock_file (fs w) /\ procs w' = procs w.
Proof.
  intros H. destruct (write_lock_fails self w H) as (w' & Hw & ?).
  exists w'. unfold write_directly, bind. now rewrite Hw.
Qed.


Lemma kill_calls_write_directly self w : kill_calls (trace_of (write_directly self w)) = [].
Proof.
  destruct (can_write_lock w) eqn:Hc.
  - now rewrite write_directly_ok.
  - now destruct (write_directly_fails self w Hc) as (w1 & -> & _).
Qed.

Lemma take_over_ok self w :
  can_write_lock w = true ->
  take_over self w =
    Ret tt (written self w)
      (remove_trace w ++
       [EvLog Debug (WroteLockFile (pid self)); EvLog Info (AcquiredLock (pid self))]).
Proof.
  intros H. unfold take_over, bind. rewrite remove_lock_run.
  rewrite write_directly_ok by now rewrite can_write_removed.
  simpl. now rewrite written_removed.
Qed.

Lemma take_over_fails self w :
  can_write_lock w = false ->
  exists w', take_over self w = Raise (McpLockError FailedToWriteLockFile) w' (remove_trace w)
             /\ lock_file (fs w') = lock_file (fs (removed w)) /\ procs w' = procs w.
Proof.
  intros H. unfold take_over, bind. rewrite remove_lock_run.
  destruct (write_directly_fails self (removed w)) as (w' & -> & Hl & Hp);
    [now rewrite can_write_removed|].
  exists w'. simpl. rewrite app_nil_r. split; [reflexivity|]. split; [assumption|].
  rewrite Hp. unfold removed. now repeat case_match.
Qed.

Lemma kill_calls_take_over self w : kill_calls (trace_of (take_over self w)) = [].
Proof.
  destruct (can_write_lock w) eqn:Hc.
  - rewrite take_over_ok by assumption. simpl.
    now rewrite kill_calls_app, kill_calls_remove_trace.
  - destruct (take_over_fails self w Hc) as (w' & -> & _). apply kill_calls_remove_trace.
Qed.

Lemma take_over_procs self w : procs (world_of (take_over self w)) = procs w.
Proof.
  destruct (can_write_lock w) eqn:Hc.
  - now rewrite take_over_ok.
  - destruct (take_over_fails self w Hc) as (w' & -> & _ & Hp). exact Hp.
Qed.

(** ** [acquire] and [release] on the file system *)

(** A successful [acquire] ends in a successful [_write_lock]. *)
Lemma acquire_Ret_written self w w' tr :
  acquire self w = Ret tt w' tr ->
  exists w1, w' = written self w1 /\ can_write_lock w1 = true.
Proof.
  unfold acquire. intros H.
  apply bind_Ret_inv in H as (? & w1 & tr1 & tr2 & _ & H & _).
  apply bind_Ret_inv in H as (? & w2 & tr3 & tr4 & _ & H & _).
  apply bind_Ret_inv in H as (? & w3 & tr5 & tr6 & _ & H & _).
  apply bind_Ret_inv in H as ([] & w4 & tr7 & tr8 & Hw & H & _).
  unfold log in H. injection H as <- _.
  exists w3. destruct (can_write_lock w3) eqn:Hc.
  - rewrite (write_lock_ok _ _ Hc) in Hw. now injection Hw as <- _.
  - destruct (write_lock_fails self _ Hc) as (w5 & Hf & _). congruence.
Qed.

(** The first half of C1: after a successful [acquire] the lock file holds
    the record of the handle, whatever it held before. *)
Lemma acquire_returns_own_record self w w' tr :
  acquire self w = Ret tt w' tr -> lock_file (fs w') = Some (py_str (pid self)).
Proof. intros H. now destruct (acquire_Ret_written _ _ _ _ H) as (w1 & -> & _). Qed.

Lemma acquire_same_conditions self : preserves same_conditions (acquire self).
Proof.
  assert (forall p, preserves same_conditions (_process_exists self p)) as Hprobe
    by auto with frame.
  assert (forall p, preserves same_conditions (_kill_process self p)) as Hkill
    by auto with frame.
  assert (preserves same_conditions (_read_lock self)) as Hread by auto with frame.
  pose proof (remove_lock_same_conditions self) as Hremove.
  pose proof (write_lock_same_conditions self) as Hwrite.
  unfold acquire.
  apply preserves_bind; [apply _ .. | apply preserves_log; apply _ | intros _].
  apply preserves_bind; [apply _ .. | exact Hread | intros existing].
  apply preserves_bind; [apply _ .. | | intros _].
  - destruct (truthy existing); [|apply preserves_ret; apply _].
    apply preserves_bind; [apply _ .. | apply Hprobe | intros [|]].
    + apply preserves_bind; [apply _ .. | apply preserves_log; apply _ | intros _].
      apply preserves_bind; [apply _ .. | apply Hkill | intros [|]];
        [exact Hremove | apply preserves_raise; apply _].
    + apply preserves_bind; [apply _ .. | apply preserves_log; apply _ | intros _].
      exact Hremove.
  - apply preserves_bind; [apply _ .. | exact Hwrite | intros _].
    apply preserves_log; apply _.
Qed.

Lemma recorded_pid_cases w :
  recorded_pid w = content_pid w \/ (read_fails (fs w) = true /\ recorded_pid w = None).
Proof. unfold recorded_pid. destruct (read_fails (fs w)); auto. Qed.

(** Without a previous owner ([None] or [0] read from the file) [acquire]
    goes straight to writing. *)
Lemma acquire_no_owner self w :
  truthy (recorded_pid w) = false ->
  acquire self w = prepend (EvLog Debug AcquiringLock :: read_trace w) (write_directly self w).
Proof.
  intros H. unfold acquire, write_directly, bind at 1 2 3. unfold log at 1.
  rewrite read_lock_run. cbn. rewrite H. cbn.
  destruct (bind _ _ w); reflexivity.
Qed.

Lemma release_owner self w :
  recorded_pid w = Some (pid self) ->
  release self w =
    Ret tt (removed w) (EvLog Debug (ReleasingLock (pid self)) :: remove_trace w ++ [EvLog Info ReleasedLock]).
Proof.
  intros H. unfold release, bind, log. rewrite read_lock_run. cbn.
  rewrite bool_decide_eq_true_2 by assumption. rewrite remove_lock_run. cbn.
  unfold read_trace. rewrite H. now destruct (lock_file (fs w)).
Qed.

(** ** [acquire] and [release] without a previous owner *)

(** C5 (as amended).  For every directory that contains no lock file, and in
    which the directory can be created if absent and the lock file written,
    [acquire] succeeds, and afterwards the lock file exists and contains
    exactly the decimal text of the caller's own process identifier. *)
Theorem acquire_fresh self w :
  lock_file (fs w) = None -> can_write_lock w = true ->
  acquire self w =
    Ret tt (written self w)
      [EvLog Debug AcquiringLock; EvLog Debug (WroteLockFile (pid self));
       EvLog Info (AcquiredLock (pid self))]
  /\ lock_file (fs (written self w)) = Some (py_str (pid self)).
Proof.
  intros Hf Hc.
  assert (recorded_pid w = None) as H.
  { unfold recorded_pid, content_pid. rewrite Hf. now destruct (read_fails (fs w)). }
  rewrite acquire_no_owner by now rewrite H.
  unfold read_trace. rewrite Hf. rewrite write_directly_ok by assumption.
  split; reflexivity.
Qed.

Lemma acquire_fresh_witness :
  lock_file (fs w_missing_dir) = None /\ can_write_lock w_missing_dir = true /\
  (acquire (the_lock w_missing_dir) w_missing_dir =
     Ret tt (written (the_lock w_missing_dir) w_missing_dir)
       [EvLog Debug AcquiringLock; EvLog Debug (WroteLockFile (pid (the_lock w_missing_dir)));
        EvLog Info (AcquiredLock (pid (the_lock w_missing_dir)))]
   /\ lock_file (fs (written (the_lock w_missing_dir) w_missing_dir)) =
        Some (py_str (pid (the_lock w_missing_dir)))).
Proof.
  split; [reflexivity|]. split; [reflexivity|].
  apply (acquire_fresh (the_lock w_missing_dir) w_missing_dir); reflexivity.
Defined.

(** C5 as stated fails in a directory where the caller may not write: the
    directory contains no lock file, and [acquire] raises the lock error of
    [_write_lock] and leaves no lock file. *)
Lemma read_only_directory_blocks_first_acquire :
  lock_file (fs w_no_lock_read_only) = None
  /\ outcome (acquire (the_lock w_no_lock_read_only) w_no_lock_read_only) =
       Raised (McpLockError FailedToWriteLockFile)
  /\ lock_file (fs (world_of (acquire (the_lock w_no_lock_read_only) w_no_lock_read_only))) = None.
Proof. repeat split; vm_compute; reflexivity. Qed.







(** C8 (as amended).  For every directory in which the lock file can be read
    and deleted, after [acquire] succeeds and [release] is then called on the
    same handle, with nothing else touching the lock file in between, the
    lock file no longer exists. *)
Theorem acquire_then_release self w w1 tr1 :
  acquire self w = Ret tt w1 tr1 ->
  read_fails (fs w) = false -> unlink_fails (fs w) = false ->
  release self w1 =
    Ret tt (without_lock_file w1)
      [EvLog Debug (ReleasingLock (pid self)); EvLog Debug RemovedLockFile; EvLog Info ReleasedLock]
  /\ lock_file (fs (without_lock_file w1)) = None.
Proof.
  intros Ha Hr Hu.
  pose proof (acquire_same_conditions self w) as (_ & _ & Hr1 & _ & Hu1).
  rewrite Ha in Hr1, Hu1. simpl in Hr1, Hu1. rewrite Hr in Hr1. rewrite Hu in Hu1.
  destruct (acquire_Ret_written _ _ _ _ Ha) as (w0 & -> & _).
  split; [|reflexivity].
  rewrite release_owner by (apply recorded_pid_written; exact Hr1).
  unfold removed, remove_trace. simpl in *. now rewrite Hu1.
Qed.

Lemma acquire_then_release_witness :
  acquire (the_lock w_missing_dir) w_missing_dir =
    Ret tt (written (the_lock w_missing_dir) w_missing_dir)
      [EvLog Debug AcquiringLock; EvLog Debug (WroteLockFile 100); EvLog Info (AcquiredLock 100)]
  /\ read_fails (fs w_missing_dir) = false /\ unlink_fails (fs w_missing_dir) = false
  /\ (release (the_lock w_missing_dir) (written (the_lock w_missing_dir) w_missing_dir) =
        Ret tt (without_lock_file (written (the_lock w_missing_dir) w_missing_dir))
          [EvLog Debug (ReleasingLock (pid (the_lock w_missing_dir)));
           EvLog Debug RemovedLockFile; EvLog Info ReleasedLock]
      /\ lock_file (fs (without_lock_file (written (the_lock w_missing_dir) w_missing_dir))) = None).
Proof.
  assert (acquire (the_lock w_missing_dir) w_missing_dir =
            Ret tt (written (the_lock w_missing_dir) w_missing_dir)
              [EvLog Debug AcquiringLock; EvLog Debug (WroteLockFile 100);
               EvLog Info (AcquiredLock 100)]) as H by (vm_compute; reflexivity).
  split; [exact H|]. split; [reflexivity|]. split; [reflexivity|].
  apply (acquire_then_release (the_lock w_missing_dir) w_missing_dir _ _ H); reflexivity.
Defined.

(** C8 as stated fails where the lock file can be overwritten but not
    deleted (a file of the caller's in a directory where the caller may not
    write): [acquire] succeeds, [release] returns, and the lock file is still
    there with the caller's record. *)
Lemma undeletable_lock_file_survives_release :
  outcome (acquire (the_lock w_corrupt_undeletable) w_corrupt_undeletable) = Returned tt
  /\ outcome (release (the_lock w_corrupt_undeletable)
                (world_of (acquire (the_lock w_corrupt_undeletable) w_corrupt_undeletable))) =
       Returned tt
  /\ lock_file (fs (world_of (release (the_lock w_corrupt_undeletable)
                     (world_of (acquire (the_lock w_corrupt_undeletable) w_corrupt_undeletable))))) =
       Some "100".
Proof. repeat split; vm_compute; reflexivity. Qed.

(** The lock as a context manager: the lock file is gone when the block is
    left, also when the block raises. *)
Example with_lock_releases :
  lock_file (fs (world_of (with_lock (the_lock w_missing_dir) (fun _ => ret tt) w_missing_dir))) = None
  /\ outcome (with_lock (the_lock w_missing_dir) (fun _ => @raise unit ValueError) w_missing_dir) =
       Raised ValueError
  /\ lock_file (fs (world_of (with_lock (the_lock w_missing_dir) (fun _ => @raise unit ValueError)
                                w_missing_dir))) = None.
Proof. repeat split; vm_compute; reflexivity. Qed.

(** ** The process table *)

Lemma is_pid_in_pid_t p : is_pid p -> in_pid_t p = true.
Proof. unfold is_pid, in_pid_t. lia. Qed.

Lemma os_kill_pid p sig w : is_pid p -> os_kill p sig w = kill_one p sig w.
Proof.
  intros H. unfold os_kill. rewrite (is_pid_in_pid_t p H).
  destruct H as [H _]. apply Z.ltb_lt in H. now rewrite H.
Qed.

Lemma os_kill_overflow p sig w :
  in_pid_t p = false -> os_kill p sig w = Raise OverflowError w [EvKill p sig (Some OverflowError)].
Proof. intros H. unfold os_kill. now rewrite H. Qed.

Lemma lookup_tick w k : procs (tick w) !! k = procs w !! k ≫= age (getpid w) k.
Proof. unfold tick. simpl. apply map_lookup_imap. Qed.

Lemma tick_absent w k : procs w !! k = None -> procs (tick w) !! k = None.
Proof. intros H. now rewrite lookup_tick, H. Qed.

Lemma tick_present w k c' :
  procs (tick w) !! k = Some c' ->
  exists c, procs w !! k = Some c /\ permitted c' = permitted c /\ on_term c' = on_term c.
Proof.
  rewrite lookup_tick. destruct (procs w !! k) as [c|]; simpl; [|discriminate].
  unfold age. intros H. exists c. split; [reflexivity|].
  repeat case_match; simplify_eq; auto.
Qed.

Lemma tick_self w c : procs w !! getpid w = Some c -> procs (tick w) !! getpid w = Some c.
Proof. intros H. rewrite lookup_tick, H. simpl. unfold age. now rewrite Z.eqb_refl. Qed.

Lemma signalable_tick w p : signalable w p -> signalable (tick w) p.
Proof.
  intros H c' Hc'. destruct (tick_present _ _ _ Hc') as (c & Hc & Hperm & _).
  specialize (H c Hc). unfold may_signal in *. simpl. now rewrite Hperm.
Qed.

Lemma without_proc_absent p w : procs (without_proc p w) !! p = None.
Proof. apply lookup_delete_eq. Qed.

Lemma probe_error_absent w p : procs w !! p = None -> probe_error w p = Some (KillError ESRCH).
Proof. intros H. unfold probe_error. now rewrite H. Qed.

Lemma probe_error_tick w p : probe_error (tick w) p = None -> probe_error w p = None.
Proof.
  unfold probe_error. destruct (procs (tick w) !! p) as [c'|] eqn:Hc'; [|discriminate].
  destruct (tick_present _ _ _ Hc') as (c & -> & Hperm & _).
  unfold may_signal. simpl. now rewrite Hperm.
Qed.

Lemma probe_error_signalable w p e :
  signalable w p -> probe_error w p = Some e -> procs w !! p = None.
Proof.
  unfold probe_error. intros H. destruct (procs w !! p) as [c|] eqn:Hc; [|reflexivity].
  now rewrite (H c Hc).
Qed.

(** The liveness probe on a process identifier: it reports a process that
    runs and that the caller may signal. *)
Lemma process_exists_pid self p w :
  is_pid p ->
  _process_exists self p w =
    Ret (bool_decide (probe_error w p = None)) (tick w) [EvKill p SIG0 (probe_error w p)].
Proof.
  intros Hp. unfold _process_exists, try_except, bind, probe_error.
  rewrite os_kill_pid by assumption. unfold kill_one.
  destruct (procs w !! p) as [c|]; [|reflexivity].
  destruct (may_signal w p c); reflexivity.
Qed.

Lemma process_exists_overflow self p w :
  in_pid_t p = false ->
  _process_exists self p w = Raise OverflowError w [EvKill p SIG0 (Some OverflowError)].
Proof.
  intros Hp. unfold _process_exists, try_except, bind. now rewrite os_kill_overflow.
Qed.

Lemma after_probe_pid self p w : is_pid p -> after_probe self p w = tick w.
Proof. intros Hp. unfold after_probe. now rewrite process_exists_pid. Qed.

(** The run of [_kill_process] on a process identifier, path by path. *)
Lemma kill_process_pid self p w :
  is_pid p ->
  _kill_process self p w =
    match procs w !! p with
    | None =>
        Ret false (tick w)
          [EvLog Info (SendingSigterm p); EvKill p SIGTERM (Some (KillError ESRCH));
           EvLog Warning (FailedToKill p)]
    | Some c =>
        if may_signal w p c then
          if fatal SIGTERM c then
            if p =? getpid w then
              Died (without_proc p w) [EvLog Info (SendingSigterm p); EvKill p SIGTERM None]
            else
              Ret true (tick (tick (tick (without_proc p w))))
                [EvLog Info (SendingSigterm p); EvKill p SIGTERM None; EvSleep 1;
                 EvKill p SIG0 (Some (KillError ESRCH)); EvLog Info (SuccessfullyTerminated p)]
          else
            let w2 := tick (tick w) in
            match probe_error w2 p with
            | Some e =>
                Ret true (tick w2)
                  [EvLog Info (SendingSigterm p); EvKill p SIGTERM None; EvSleep 1;
                   EvKill p SIG0 (Some e); EvLog Info (SuccessfullyTerminated p)]
            | None =>
                let before := [EvLog Info (SendingSigterm p); EvKill p SIGTERM None; EvSleep 1;
                               EvKill p SIG0 None; EvLog Warning (NoResponseSendingSigkill p)] in
                match procs (tick w2) !! p with
                | None =>
                    Ret false (tick (tick w2))
                      (before ++ [EvKill p SIGKILL (Some (KillError ESRCH));
                                  EvLog Warning (FailedToKill p)])
                | Some c3 =>
                    if may_signal (tick w2) p c3 then
                      if p =? getpid w then
                        Died (without_proc p (tick w2)) (before ++ [EvKill p SIGKILL None])
                      else
                        Ret true (tick (without_proc p (tick w2)))
                          (before ++ [EvKill p SIGKILL None;
                                      EvLog Info (SuccessfullyTerminated p)])
                    else
                      Ret false (tick (tick w2))
                        (before ++ [EvKill p SIGKILL (Some (KillError EPERM));
                                    EvLog Warning (FailedToKill p)])
                end
            end
        else
          Ret false (tick w)
            [EvLog Info (SendingSigterm p); EvKill p SIGTERM (Some (KillError EPERM));
             EvLog Warning (FailedToKill p)]
    end.
Proof.
  intros Hp. unfold _kill_process, try_except, bind, log, ret, time_sleep.
  cbv beta. rewrite os_kill_pid by assumption. unfold kill_one at 1.
  destruct (procs w !! p) as [c|] eqn:Hc; [|reflexivity].
  destruct (may_signal w p c) eqn:Hs; [|reflexivity].
  destruct (fatal SIGTERM c) eqn:Hf.
  - destruct (p =? getpid w) eqn:Hself; [reflexivity|].
    cbn [prepend app]. rewrite process_exists_pid by assumption.
    rewrite (probe_error_absent _ p)
      by (apply tick_absent, tick_absent, without_proc_absent).
    reflexivity.
  - cbn [prepend app]. rewrite process_exists_pid by assumption. cbv zeta.
    destruct (probe_error (tick (tick w)) p) as [e|] eqn:He; [reflexivity|].
    rewrite bool_decide_eq_true_2 by reflexivity.
    cbv beta iota. rewrite os_kill_pid by assumption. unfold kill_one.
    destruct (procs (tick (tick (tick w))) !! p) as [c3|]; [|reflexivity].
    destruct (may_signal (tick (tick (tick w))) p c3); [|reflexivity].
    cbn [fatal]. change (getpid (tick (tick (tick w)))) with (getpid w).
    destruct (p =? getpid w); reflexivity.
Qed.

Lemma kill_process_overflow self p w :
  in_pid_t p = false ->
  _kill_process self p w =
    Raise OverflowError w [EvLog Info (SendingSigterm p); EvKill p SIGTERM (Some OverflowError)].
Proof.
  intros Hp. unfold _kill_process, try_except, bind, log. now rewrite os_kill_overflow.
Qed.

(** When [_kill_process] returns [True] the process was there to be
    signalled ... *)
Lemma kill_process_true_probe self p w w2 tr2 :
  is_pid p -> _kill_process self p w = Ret true w2 tr2 -> probe_error w p = None.
Proof.
  intros Hp. rewrite kill_process_pid by assumption. unfold probe_error.
  destruct (procs w !! p) as [c|]; [|discriminate].
  now destruct (may_signal w p c).
Qed.

(** ... and is gone afterwards. *)
Lemma kill_process_true_gone self p w w2 tr2 :
  is_pid p -> signalable w p ->
  _kill_process self p w = Ret true w2 tr2 -> procs w2 !! p = None.
Proof.
  intros Hp Hs. rewrite kill_process_pid by assumption; cbv zeta.
  pose proof (signalable_tick _ _ (signalable_tick _ _ Hs)) as Hs2.
  pose proof (fun e => probe_error_signalable _ _ e Hs2) as Habs.
  repeat case_match; intros Hrun; simplify_eq.
  - do 3 apply tick_absent. apply without_proc_absent.
  - apply tick_absent. eauto.
  - apply tick_absent, without_proc_absent.
Qed.

Lemma kill_process_termination_calls self p w :
  is_pid p -> termination_calls (trace_of (_kill_process self p w)) = [p].
Proof. intros Hp. rewrite kill_process_pid by assumption; cbv zeta. now repeat case_match. Qed.

Lemma kill_process_failed self p w q :
  is_pid p -> termination_signal_failed q (trace_of (_kill_process self p w)) ->
  exists w' tr, _kill_process self p w = Ret false w' tr.
Proof.
  intros Hp. rewrite kill_process_pid by assumption; cbv zeta.
  intros (sig & e & Hsig & He & Hin).
  repeat case_match; eauto; simpl in Hin;
    repeat (destruct Hin as [Hin|Hin]; [simplify_eq; try discriminate|]); try destruct Hin.
Qed.

Lemma termination_succeeds_pid self p w :
  0 < p -> termination_succeeds self p w -> is_pid p.
Proof.
  intros Hpos (w2 & tr2 & Hk). split; [assumption|].
  destruct (in_pid_t p) eqn:Hr; [unfold in_pid_t in Hr; lia|].
  now rewrite kill_process_overflow in Hk.
Qed.

(** ** [acquire] with a previous owner *)

(** [acquire] when the lock file records a previous owner. *)
Lemma acquire_owner self w p :
  recorded_pid w = Some p -> p <> 0 ->
  acquire self w =
    prepend [EvLog Debug AcquiringLock]
      match _process_exists self p w with
      | Ret true w1 tr1 =>
          prepend (tr1 ++ [EvLog Warning (FoundRunningServer p)])
            match _kill_process self p w1 with
            | Ret true w2 tr2 => prepend tr2 (take_over self w2)
            | Ret false w2 tr2 => Raise (McpLockError (CouldNotTerminate p)) w2 tr2
            | Raise e w2 tr2 => Raise e w2 tr2
            | Died w2 tr2 => Died w2 tr2
            end
      | Ret false w1 tr1 =>
          prepend (tr1 ++ [EvLog Info (RemovingStaleLock p)]) (take_over self w1)
      | Raise e w1 tr1 => Raise e w1 tr1
      | Died w1 tr1 => Died w1 tr1
      end.
Proof.
  intros Hr Hp.
  assert (truthy (Some p) = true) as Ht by (simpl; now apply negb_true_iff, Z.eqb_neq).
  unfold acquire, take_over, write_directly, bind, log, raise.
  rewrite read_lock_run, (read_trace_recorded _ _ Hr), Hr.
  cbv beta iota. rewrite Ht. change (default 0 (Some p)) with p. cbv beta iota zeta.
  destruct (_process_exists self p w) as [[|] w1 tr1|e w1 tr1|w1 tr1];
    cbn [prepend app]; [| |reflexivity..].
  - destruct (_kill_process self p w1) as [[|] w2 tr2|e w2 tr2|w2 tr2]; cbn [prepend app];
      norm_trace; try reflexivity.
    destruct (_remove_lock self w2) as [[] w3 tr3|e w3 tr3|w3 tr3]; cbn [prepend app];
      norm_trace; try reflexivity.
    destruct (_write_lock self w3) as [[] w4 tr4|e w4 tr4|w4 tr4]; cbn [prepend app];
      norm_trace; reflexivity.
  - destruct (_remove_lock self w1) as [[] w3 tr3|e w3 tr3|w3 tr3]; cbn [prepend app];
      norm_trace; try reflexivity.
    destruct (_write_lock self w3) as [[] w4 tr4|e w4 tr4|w4 tr4]; cbn [prepend app];
      norm_trace; reflexivity.
Qed.

Lemma acquire_owner_overflow self w p :
  recorded_pid w = Some p -> in_pid_t p = false ->
  acquire self w =
    Raise OverflowError w [EvLog Debug AcquiringLock; EvKill p SIG0 (Some OverflowError)].
Proof.
  intros Hr Hp. rewrite (acquire_owner self w p Hr) by (intros ->; discriminate).
  now rewrite process_exists_overflow.
Qed.

Lemma acquire_owner_pid self w p :
  recorded_pid w = Some p -> is_pid p ->
  acquire self w =
    match probe_error w p with
    | None =>
        prepend [EvLog Debug AcquiringLock; EvKill p SIG0 None; EvLog Warning (FoundRunningServer p)]
          match _kill_process self p (tick w) with
          | Ret true w2 tr2 => prepend tr2 (take_over self w2)
          | Ret false w2 tr2 => Raise (McpLockError (CouldNotTerminate p)) w2 tr2
          | Raise e w2 tr2 => Raise e w2 tr2
          | Died w2 tr2 => Died w2 tr2
          end
    | Some e =>
        prepend [EvLog Debug AcquiringLock; EvKill p SIG0 (Some e); EvLog Info (RemovingStaleLock p)]
          (take_over self (tick w))
    end.
Proof.
  intros Hr Hp. rewrite (acquire_owner self w p Hr) by (unfold is_pid in Hp; lia).
  rewrite process_exists_pid by assumption.
  destruct (probe_error w p) as [e|]; cbn [bool_decide decide_rel]; [|].
  - rewrite bool_decide_eq_false_2 by discriminate. now rewrite prepend_prepend.
  - rewrite bool_decide_eq_true_2 by reflexivity. now rewrite prepend_prepend.
Qed.

(** ** Taking the lock over from a previous owner *)

(** C4 (as amended).  For every initial state with a lock file that contains
    a process identifier of no running process, and in which the lock file
    can be written, [acquire] succeeds; it sends no termination signal to any
    process, its only call of [os.kill] being the null signal of the liveness
    probe (and none when the file cannot be read); and it finishes with the
    lock file containing the caller's own process identifier. *)
Theorem acquire_stale_lock self w p :
  content_pid w = Some p -> is_pid p -> procs w !! p = None ->
  can_write_lock w = true ->
  exists w' tr,
    acquire self w = Ret tt w' tr
    /\ lock_file (fs w') = Some (py_str (pid self))
    /\ kill_calls tr = (if read_fails (fs w) then [] else [(p, SIG0)])
    /\ termination_calls tr = [].
Proof.
  intros Hcontent Hp Hdead Hc.
  destruct (read_fails (fs w)) eqn:Hread.
  - assert (recorded_pid w = None) as Hr by (unfold recorded_pid; now rewrite Hread).
    rewrite acquire_no_owner by now rewrite Hr.
    rewrite write_directly_ok by exact Hc.
    eexists _, _. split; [reflexivity|]. split; [reflexivity|].
    assert (kill_calls (EvLog Debug AcquiringLock :: read_trace w ++
              [EvLog Debug (WroteLockFile (pid self)); EvLog Info (AcquiredLock (pid self))]) = [])
      as Hk by (simpl; now rewrite kill_calls_app, kill_calls_read_trace).
    split; [exact Hk | now apply termination_calls_kill_calls].
  - assert (recorded_pid w = Some p) as Hr by (unfold recorded_pid; now rewrite Hread).
    rewrite (acquire_owner_pid self w p Hr Hp), (probe_error_absent w p Hdead).
    rewrite take_over_ok by exact Hc.
    eexists _, _. split; [reflexivity|]. split; [reflexivity|].
    simpl. rewrite kill_calls_app, termination_calls_app, kill_calls_remove_trace.
    rewrite (termination_calls_kill_calls _ (kill_calls_remove_trace (tick w))).
    split; reflexivity.
Qed.

Lemma acquire_stale_lock_witness :
  content_pid w_stale = Some 999999 /\ is_pid 999999 /\ procs w_stale !! 999999 = None /\
  can_write_lock w_stale = true /\
  exists w' tr,
    acquire (the_lock w_stale) w_stale = Ret tt w' tr
    /\ lock_file (fs w') = Some (py_str (pid (the_lock w_stale)))
    /\ kill_calls tr = (if read_fails (fs w_stale) then [] else [(999999, SIG0)])
    /\ termination_calls tr = [].
Proof.
  assert (is_pid 999999) as Hp by (unfold is_pid; lia).
  split; [reflexivity|]. split; [exact Hp|]. split; [reflexivity|]. split; [reflexivity|].
  apply (acquire_stale_lock (the_lock w_stale) w_stale 999999);
    [reflexivity | exact Hp | reflexivity..].
Defined.

(** C4 as stated fails in a directory where the caller may not write: the
    stale record stays and [acquire] raises the lock error of [_write_lock]. *)
Lemma read_only_directory_blocks_stale_takeover :
  content_pid w_stale_read_only = Some 999999
  /\ procs w_stale_read_only !! 999999 = None
  /\ outcome (acquire (the_lock w_stale_read_only) w_stale_read_only) =
       Raised (McpLockError FailedToWriteLockFile)
  /\ lock_file (fs (world_of (acquire (the_lock w_stale_read_only) w_stale_read_only))) =
       Some "999999".
Proof. repeat split; vm_compute; reflexivity. Qed.

(** C3 (as amended).  For every initial state with a lock file that contains
    the process identifier of a live process, when termination succeeds and
    the lock file can be written, [acquire] invokes [_kill_process] exactly
    once, for that identifier, and finishes with the lock file containing the
    caller's own process identifier. *)
Theorem acquire_live_takeover self w p :
  recorded_pid w = Some p -> live w p -> termination_succeeds self p w ->
  can_write_lock w = true ->
  exists w' tr,
    acquire self w = Ret tt w' tr
    /\ lock_file (fs w') = Some (py_str (pid self))
    /\ termination_calls tr = [p].
Proof.
  intros Hr [Hpos _] Hts Hc.
  pose proof (termination_succeeds_pid self p w Hpos Hts) as Hp.
  destruct Hts as (w2 & tr2 & Hk). rewrite after_probe_pid in Hk by assumption.
  pose proof (probe_error_tick _ _ (kill_process_true_probe _ _ _ _ _ Hp Hk)) as Hprobe.
  pose proof (kill_process_termination_calls self p (tick w) Hp) as Hcalls.
  pose proof (kill_process_same_files self p (tick w)) as Hsame.
  rewrite Hk in Hcalls, Hsame. simpl in Hcalls, Hsame.
  assert (can_write_lock w2 = true) as Hc2.
  { rewrite (can_write_same_files (tick w) w2 Hsame). exact Hc. }
  rewrite (acquire_owner_pid self w p Hr Hp), Hprobe, Hk, (take_over_ok self w2 Hc2).
  eexists _, _. split; [reflexivity|]. split; [reflexivity|].
  simpl. rewrite !termination_calls_app, Hcalls.
  now rewrite (termination_calls_kill_calls _ (kill_calls_remove_trace w2)).
Qed.

Lemma acquire_live_takeover_witness :
  recorded_pid w_live = Some 4242 /\ live w_live 4242 /\
  termination_succeeds (the_lock w_live) 4242 w_live /\ can_write_lock w_live = true /\
  exists w' tr,
    acquire (the_lock w_live) w_live = Ret tt w' tr
    /\ lock_file (fs w') = Some (py_str (pid (the_lock w_live)))
    /\ termination_calls tr = [4242].
Proof.
  assert (live w_live 4242) as Hlive by (split; [lia | eexists; vm_compute; reflexivity]).
  assert (termination_succeeds (the_lock w_live) 4242 w_live) as Hts
    by (eexists _, _; vm_compute; reflexivity).
  split; [reflexivity|]. split; [exact Hlive|]. split; [exact Hts|]. split; [reflexivity|].
  apply (acquire_live_takeover (the_lock w_live) w_live 4242); [reflexivity | exact Hlive | exact Hts | reflexivity].
Defined.

(** C3 as stated fails in a directory where the caller may not write: the
    previous owner is terminated, and [acquire] raises the lock error of
    [_write_lock], the lock file still holding the record of that owner. *)
Lemma read_only_directory_blocks_live_takeover :
  recorded_pid w_live_read_only = Some 4242
  /\ live w_live_read_only 4242
  /\ termination_succeeds (the_lock w_live_read_only) 4242 w_live_read_only
  /\ termination_calls (trace_of (acquire (the_lock w_live_read_only) w_live_read_only)) = [4242]
  /\ outcome (acquire (the_lock w_live_read_only) w_live_read_only) =
       Raised (McpLockError FailedToWriteLockFile)
  /\ lock_file (fs (world_of (acquire (the_lock w_live_read_only) w_live_read_only))) =
       Some "4242"
  /\ procs (world_of (acquire (the_lock w_live_read_only) w_live_read_only)) !! 4242 = None.
Proof.
  split; [reflexivity|]. split; [split; [lia | eexists; vm_compute; reflexivity]|].
  split; [eexists _, _; vm_compute; reflexivity|].
  repeat split; vm_compute; reflexivity.
Qed.

(** C2.  For every initial state with a lock file that records the process
    identifier of a live process, if a termination signal sent to that
    process raises an [OSError], [acquire] raises the lock error whose message
    names that identifier, and the file system is what it was: no new record
    is written and the lock file keeps its content. *)
Theorem acquire_takeover_failure self w p :
  content_pid w = Some p -> live w p ->
  termination_signal_failed p (trace_of (acquire self w)) ->
  exists w' tr,
    acquire self w = Raise (McpLockError (CouldNotTerminate p)) w' tr
    /\ fs w' = fs w
    /\ message (CouldNotTerminate p) =
         "Could not terminate existing MCP server (PID " +:+ py_str p +:+ ")".
Proof.
  intros Hcontent [Hpos _] Hfail.
  assert (recorded_pid w = Some p) as Hr.
  { destruct (recorded_pid_cases w) as [->|[_ Hnone]]; [exact Hcontent|].
    exfalso. rewrite acquire_no_owner in Hfail by now rewrite Hnone.
    revert Hfail. apply no_termination_signal_failed.
    rewrite trace_of_prepend.
    change (EvLog Debug AcquiringLock :: read_trace w)
      with ([EvLog Debug AcquiringLock] ++ read_trace w).
    now rewrite !kill_calls_app, kill_calls_read_trace, kill_calls_write_directly. }
  destruct (in_pid_t p) eqn:Hrange.
  2:{ rewrite (acquire_owner_overflow self w p Hr Hrange) in Hfail.
      destruct Hfail as (sig & e & Hs & He & [Hin|[Hin|[]]]); simplify_eq; discriminate. }
  assert (is_pid p) as Hp by (unfold is_pid, in_pid_t in *; lia).
  rewrite (acquire_owner_pid self w p Hr Hp) in Hfail |- *.
  destruct (probe_error w p) as [e0|].
  { exfalso. rewrite trace_of_prepend in Hfail.
    apply termination_signal_failed_app in Hfail as [Hfail|Hfail].
    - destruct Hfail as (sig & e & Hs & He & [Hin|[Hin|[Hin|[]]]]); simplify_eq; discriminate.
    - revert Hfail. apply no_termination_signal_failed, kill_calls_take_over. }
  rewrite trace_of_prepend in Hfail.
  apply termination_signal_failed_app in Hfail as [Hfail|Hfail].
  { destruct Hfail as (sig & e & Hs & He & [Hin|[Hin|[Hin|[]]]]); simplify_eq; discriminate. }
  pose proof (kill_process_same_files self p (tick w)) as [Hsame _].
  pose proof (kill_process_failed self p (tick w) p Hp) as Hfalse.
  destruct (_kill_process self p (tick w)) as [[|] w2 tr2|e w2 tr2|w2 tr2] eqn:Hk;
    simpl in Hsame.
  - exfalso. rewrite trace_of_prepend in Hfail.
    apply termination_signal_failed_app in Hfail as [Hfail|Hfail].
    + destruct (Hfalse Hfail) as (? & ? & [=]).
    + revert Hfail. apply no_termination_signal_failed, kill_calls_take_over.
  - eexists _, _. split; [reflexivity|]. split; [exact Hsame | reflexivity].
  - destruct (Hfalse Hfail) as (? & ? & [=]).
  - destruct (Hfalse Hfail) as (? & ? & [=]).
Qed.

Lemma acquire_takeover_failure_witness :
  content_pid w_exiting = Some 4242 /\ live w_exiting 4242 /\
  termination_signal_failed 4242 (trace_of (acquire (the_lock w_exiting) w_exiting)) /\
  exists w' tr,
    acquire (the_lock w_exiting) w_exiting = Raise (McpLockError (CouldNotTerminate 4242)) w' tr
    /\ fs w' = fs w_exiting
    /\ message (CouldNotTerminate 4242) =
         "Could not terminate existing MCP server (PID " +:+ py_str 4242 +:+ ")".
Proof.
  assert (live w_exiting 4242) as Hlive by (split; [lia | eexists; vm_compute; reflexivity]).
  assert (termination_signal_failed 4242 (trace_of (acquire (the_lock w_exiting) w_exiting)))
    as Hfail.
  { exists SIGTERM, (KillError ESRCH). split; [reflexivity|]. split; [reflexivity|].
    vm_compute. do 4 right. left. reflexivity. }
  split; [reflexivity|]. split; [exact Hlive|]. split; [exact Hfail|].
  apply (acquire_takeover_failure (the_lock w_exiting) w_exiting 4242); [reflexivity | exact Hlive | exact Hfail].
Defined.

(** C10 (as amended).  If [acquire] is called while the lock file records the
    calling process's own identifier, the caller being a live process, it
    does not recognise its own record: it probes itself, finds itself alive
    and delivers SIGTERM to itself.  When that signal ends the caller the run
    stops there.  Otherwise it sleeps the grace period of one second, probes
    its own liveness again, finds itself alive and delivers SIGKILL to
    itself.  In both cases the caller is terminated and the lock file is not
    written. *)
Theorem acquire_own_pid self w c :
  recorded_pid w = Some (getpid w) -> is_pid (getpid w) ->
  procs w !! getpid w = Some c ->
  let p := getpid w in
  let start :=
    [EvLog Debug AcquiringLock; EvKill p SIG0 None; EvLog Warning (FoundRunningServer p);
     EvLog Info (SendingSigterm p); EvKill p SIGTERM None] in
  acquire self w =
    match on_term c with
    | TermExits => Died (without_proc p (tick w)) start
    | TermStays =>
        Died (without_proc p (tick (tick (tick (tick w)))))
          (start ++ [EvSleep 1; EvKill p SIG0 None;
                     EvLog Warning (NoResponseSendingSigkill p); EvKill p SIGKILL None])
    end.
Proof.
  intros Hr Hp Hc p start. subst p start.
  assert (forall w', getpid w' = getpid w -> procs w' !! getpid w = Some c ->
                     probe_error w' (getpid w) = None) as Hprobe.
  { intros w' Hg Hc'. unfold probe_error, may_signal. now rewrite Hc', Hg, Z.eqb_refl. }
  assert (procs (tick w) !! getpid w = Some c) as Hc1 by exact (tick_self w c Hc).
  assert (procs (tick (tick w)) !! getpid w = Some c) as Hc2
    by exact (tick_self (tick w) c Hc1).
  assert (procs (tick (tick (tick w))) !! getpid w = Some c) as Hc3
    by exact (tick_self (tick (tick w)) c Hc2).
  assert (procs (tick (tick (tick (tick w)))) !! getpid w = Some c) as Hc4
    by exact (tick_self (tick (tick (tick w))) c Hc3).
  rewrite (acquire_owner_pid self w _ Hr Hp), (Hprobe w eq_refl Hc).
  rewrite kill_process_pid by assumption. cbv zeta.
  change (getpid (tick w)) with (getpid w). rewrite Hc1.
  unfold may_signal. change (getpid (tick w)) with (getpid w).
  change (getpid (tick (tick (tick (tick w))))) with (getpid w).
  rewrite Z.eqb_refl. cbn [orb fatal].
  destruct (on_term c); [reflexivity|].
  rewrite (Hprobe (tick (tick (tick w))) eq_refl Hc3), Hc4. reflexivity.
Qed.

Lemma acquire_own_pid_witness :
  recorded_pid w_own_pid_stays = Some (getpid w_own_pid_stays) /\
  is_pid (getpid w_own_pid_stays) /\
  procs w_own_pid_stays !! getpid w_own_pid_stays = Some (the_caller TermStays) /\
  kill_calls (trace_of (acquire (the_lock w_own_pid_stays) w_own_pid_stays)) =
    [(100, SIG0); (100, SIGTERM); (100, SIG0); (100, SIGKILL)].
Proof.
  assert (is_pid (getpid w_own_pid_stays)) as Hp by (unfold is_pid; simpl; lia).
  split; [reflexivity|]. split; [exact Hp|]. split; [reflexivity|].
  rewrite (acquire_own_pid (the_lock w_own_pid_stays) w_own_pid_stays (the_caller TermStays)
             eq_refl Hp eq_refl).
  reflexivity.
Defined.

(** C10 as stated fails for a caller that SIGTERM ends, as it does a Python
    process without a handler for it: the run stops at the signal, with no
    sleep and no second probe. *)
Lemma sigterm_to_own_pid_ends_caller :
  recorded_pid w_own_pid = Some (getpid w_own_pid)
  /\ is_Some (procs w_own_pid !! getpid w_own_pid)
  /\ outcome (acquire (the_lock w_own_pid) w_own_pid) = Killed
  /\ trace_of (acquire (the_lock w_own_pid) w_own_pid) =
       [EvLog Debug AcquiringLock; EvKill 100 SIG0 None; EvLog Warning (FoundRunningServer 100);
        EvLog Info (SendingSigterm 100); EvKill 100 SIGTERM None]
  /\ ~ In (EvSleep 1) (trace_of (acquire (the_lock w_own_pid) w_own_pid)).
Proof.
  split; [reflexivity|]. split; [eexists; vm_compute; reflexivity|].
  split; [vm_compute; reflexivity|]. split; [vm_compute; reflexivity|].
  vm_compute. intuition discriminate.
Qed.

(** A second [acquire] on the same handle finds the record that the first one
    wrote, and ends the caller. *)
Example second_acquire_ends_caller :
  outcome (acquire (the_lock w_missing_dir) w_missing_dir) = Returned tt
  /\ outcome (acquire (the_lock w_missing_dir)
                (world_of (acquire (the_lock w_missing_dir) w_missing_dir))) = Killed.
Proof. split; vm_compute; reflexivity. Qed.

(** C1, at a state where the code breaks it.  The lock file records process
    4242, which runs under another user: the null signal of the liveness
    probe fails with EPERM, [_process_exists] answers [False], the record is
    taken for stale, and [acquire] returns with its own record in the lock
    file while process 4242 is still running. *)
Theorem acquire_leaves_foreign_owner_running :
  recorded_pid w_foreign = Some 4242
  /\ live w_foreign 4242
  /\ outcome (acquire (the_lock w_foreign) w_foreign) = Returned tt
  /\ kill_calls (trace_of (acquire (the_lock w_foreign) w_foreign)) = [(4242, SIG0)]
  /\ lock_file (fs (world_of (acquire (the_lock w_foreign) w_foreign))) = Some "100"
  /\ is_Some (procs (world_of (acquire (the_lock w_foreign) w_foreign)) !! 4242).
Proof.
  split; [reflexivity|]. split; [split; [lia | eexists; vm_compute; reflexivity]|].
  split; [vm_compute; reflexivity|]. split; [vm_compute; reflexivity|].
  split; [vm_compute; reflexivity|]. eexists; vm_compute; reflexivity.
Qed.

(** The second half of C1 holds for a previous owner that the caller may
    signal: when [acquire] returns, that process is gone. *)
Lemma acquire_terminates_signalable_owner self w w' tr p c :
  acquire self w = Ret tt w' tr ->
  recorded_pid w = Some p -> 0 < p -> procs w !! p = Some c -> may_signal w p c = true ->
  procs w' !! p = None.
Proof.
  intros Ha Hr Hpos Hc Hs.
  destruct (in_pid_t p) eqn:Hrange;
    [|now rewrite (acquire_owner_overflow self w p Hr Hrange) in Ha].
  assert (is_pid p) as Hp by (unfold is_pid, in_pid_t in *; lia).
  assert (signalable (tick w) p) as Hsig.
  { apply signalable_tick. intros c' Hc'. congruence. }
  rewrite (acquire_owner_pid self w p Hr Hp) in Ha.
  assert (probe_error w p = None) as Hprobe by (unfold probe_error; now rewrite Hc, Hs).
  rewrite Hprobe in Ha.
  destruct (_kill_process self p (tick w)) as [[|] w2 tr2|e w2 tr2|w2 tr2] eqn:Hk;
    try discriminate Ha.
  pose proof (kill_process_true_gone self p _ _ _ Hp Hsig Hk) as Hgone.
  pose proof (take_over_procs self w2) as Hprocs.
  destruct (take_over self w2) as [[] w3 tr3| |]; try discriminate Ha.
  simpl in Ha, Hprocs. injection Ha as <- _. now rewrite Hprocs.
Qed.

(** A lock file that holds a number outside [pid_t] makes [acquire] raise the
    [OverflowError] of [os.kill], which no [except] clause of the class
    handles. *)
Example acquire_pid_out_of_range :
  content_pid w_huge = Some 99999999999
  /\ outcome (acquire (the_lock w_huge) w_huge) = Raised OverflowError
  /\ fs (world_of (acquire (the_lock w_huge) w_huge)) = fs w_huge.
Proof. repeat split; vm_compute; reflexivity. Qed.

(** A lock file that holds [-1] addresses every process: [acquire] sends
    SIGTERM to all the processes that the caller may signal. *)
Example acquire_minus_one :
  outcome (acquire (the_lock w_minus_one) w_minus_one) = Returned tt
  /\ kill_calls (trace_of (acquire (the_lock w_minus_one) w_minus_one)) =
       [(-1, SIG0); (-1, SIGTERM); (-1, SIG0)]
  /\ procs (world_of (acquire (the_lock w_minus_one) w_minus_one)) !! 4242 = None.
Proof. repeat split; vm_compute; reflexivity. Qed.

(** ** [os.kill] on any argument *)

Lemma set_procs_same w : set_procs (procs w) w = w.
Proof. now destruct w. Qed.

Lemma hit_SIG0 w p k c : hit w p SIG0 k c = false.
Proof. unfold hit. cbn [fatal]. now rewrite andb_false_r. Qed.

Lemma filter_no_hit_SIG0 w p :
  filter (fun kp : Z * Proc => hit w p SIG0 kp.1 kp.2 = false) (procs w) = procs w.
Proof. apply map_filter_id. intros k c _. apply hit_SIG0. Qed.

Lemma os_kill_outcome p sig w : KillOutcome p sig w (os_kill p sig w).
Proof.
  unfold os_kill. destruct (in_pid_t p) eqn:Hr; [|now constructor].
  destruct (0 <? p).
  - unfold kill_one.
    destruct (procs w !! p) as [c|] eqn:Hc; [|now constructor].
    destruct (may_signal w p c); [|now constructor].
    destruct (fatal sig c) eqn:Hf.
    + destruct (p =? getpid w) eqn:Hself.
      * constructor; [assumption|]. destruct sig; [discriminate|reflexivity..].
      * constructor; [assumption|split; reflexivity|].
        intros c0 Hc0. apply (tick_self (set_procs (delete p (procs w)) w)).
        simpl. rewrite lookup_delete_ne; [assumption|]. apply Z.eqb_neq in Hself. congruence.
    + constructor; [assumption|split; reflexivity|]. intros c0. apply tick_self.
  - unfold kill_many. cbv zeta.
    destruct (decide _); [now constructor|].
    destruct (decide _); [now constructor|].
    set (w' := set_procs _ w).
    assert (forall c, procs w !! getpid w = Some c -> hit w p sig (getpid w) c = false ->
                      procs (tick w') !! getpid w = Some c) as Hkeep.
    { intros c Hc Hh. apply (tick_self w'). subst w'. simpl.
      apply map_lookup_filter_Some. split; assumption. }
    destruct (procs w !! getpid w) as [c|] eqn:Hc.
    + destruct (hit w p sig (getpid w) c) eqn:Hh.
      * constructor; [assumption|]. destruct sig; [|reflexivity..].
        now rewrite hit_SIG0 in Hh.
      * constructor; [assumption|split; reflexivity|].
        intros c0 Hc0. rewrite Hc in Hc0. apply Hkeep; [exact Hc0|]. now simplify_eq.
    + constructor; [assumption|split; reflexivity|]. intros c0 Hc0. congruence.
Qed.

Lemma os_kill_SIG0 p w :
  in_pid_t p = true ->
  os_kill p SIG0 w = Ret tt (tick w) [EvKill p SIG0 None] \/
  exists e, os_kill p SIG0 w = Raise (KillError e) (tick w) [EvKill p SIG0 (Some (KillError e))].
Proof.
  intros Hr. unfold os_kill. rewrite Hr. destruct (0 <? p).
  - unfold kill_one. repeat case_match; eauto; discriminate.
  - unfold kill_many. cbv zeta. rewrite filter_no_hit_SIG0, set_procs_same.
    repeat case_match; eauto. now rewrite hit_SIG0 in *.
Qed.

(** The liveness probe on any number in the range of [pid_t]. *)
Lemma process_exists_in_range self p w :
  in_pid_t p = true ->
  _process_exists self p w = Ret true (tick w) [EvKill p SIG0 None] \/
  exists e, _process_exists self p w = Ret false (tick w) [EvKill p SIG0 (Some (KillError e))].
Proof.
  intros Hr. unfold _process_exists, try_except, bind.
  destruct (os_kill_SIG0 p w Hr) as [-> | [e ->]]; [left; reflexivity|right; eauto].
Qed.

Lemma kill_process_run self p w : KillProcessRun p w (_kill_process self p w).
Proof.
  unfold _kill_process, try_except, bind, log, ret, time_sleep. cbv beta.
  pose proof (os_kill_outcome p SIGTERM w) as H1.
  destruct (os_kill p SIGTERM w) as [[] w1 tr1|e1 w1 tr1|w1 tr1] eqn:Hk1; inversion H1; subst.
  - cbn [prepend app].
    destruct (process_exists_in_range self p (tick w1) H2) as [-> | [e ->]];
      [|cbn [prepend app]; eapply KpGone; eassumption].
    cbn [prepend app].
    pose proof (os_kill_outcome p SIGKILL (tick (tick w1))) as Hout.
    destruct (os_kill p SIGKILL (tick (tick w1))) as [[] w3 tr3|e3 w3 tr3|w3 tr3] eqn:Hk3;
      inversion Hout; subst; try congruence; cbn [prepend app is_OSError].
    + eapply KpKilled; eassumption.
    + eapply KpKillRefused; eassumption.
    + eapply KpKillSelf; eassumption.
  - cbn [is_OSError prepend app]. constructor.
  - cbn [is_OSError]. now constructor.
  - constructor.
Qed.

(** ** The lock file as a record: reading, writing, removing *)

Lemma lstrip_spaces a s : forall_chars isspace a = true -> lstrip (a +:+ s) = lstrip s.
Proof.
  induction a as [|c a IH]; simpl; [reflexivity|].
  intros [Hc Ha]%andb_prop. rewrite Hc. auto.
Qed.

Lemma rstrip_all_spaces b : forall_chars isspace b = true -> rstrip b = "".
Proof.
  induction b as [|c b IH]; simpl; [reflexivity|].
  intros [Hc Hb]%andb_prop. now rewrite (IH Hb), Hc.
Qed.

Lemma rstrip_spaces s b : forall_chars isspace b = true -> rstrip (s +:+ b) = rstrip s.
Proof.
  intros Hb. induction s as [|c s IH]; simpl; [now apply rstrip_all_spaces|].
  now rewrite IH.
Qed.

Lemma lstrip_app_no_space s b :
  lstrip s = s -> s <> "" -> lstrip (s +:+ b) = s +:+ b.
Proof.
  destruct s as [|c s]; [congruence|]. intros H _.
  pose proof (lstrip_head _ _ _ H) as Hc. simpl. now rewrite Hc.
Qed.

Lemma py_str_nonempty n : py_str n <> "".
Proof.
  intros H. pose proof (py_int_py_str n) as Hn. rewrite H in Hn. discriminate.
Qed.

(** White space around the number does not matter to a reader. *)
Lemma strip_padded a b n :
  forall_chars isspace a = true -> forall_chars isspace b = true ->
  strip (a +:+ py_str n +:+ b) = py_str n.
Proof.
  intros Ha Hb. unfold strip. rewrite (lstrip_spaces a _ Ha).
  rewrite lstrip_app_no_space;
    [|apply lstrip_no_space, py_str_no_space|apply py_str_nonempty].
  rewrite (rstrip_spaces _ b Hb). apply rstrip_no_space, py_str_no_space.
Qed.


(** X2 — [_read_lock] accepts a record with white space around the
    number, as an editor or [echo] leaves it: for every integer [n], a
    readable lock file whose text is [str(n)] between two runs of white space
    is read as [n], without a warning. *)
Theorem read_lock_skips_white_space self w a b n :
  forall_chars isspace a = true -> forall_chars isspace b = true ->
  lock_file (fs w) = Some (a +:+ py_str n +:+ b) -> read_fails (fs w) = false ->
  _read_lock self w = Ret (Some n) w [].
Proof.
  intros Ha Hb Hl Hr.
  assert (recorded_pid w = Some n) as Hn.
  { unfold recorded_pid, content_pid. rewrite Hr, Hl. simpl.
    rewrite (strip_padded a b n Ha Hb), <- (strip_py_str n). apply py_int_py_str. }
  rewrite read_lock_run, Hn. now rewrite (read_trace_recorded w n Hn).
Qed.

Lemma read_lock_skips_white_space_witness :
  forall_chars isspace " " = true /\ forall_chars isspace newline = true /\
  lock_file (fs w_newline) = Some (" " +:+ py_str 4242 +:+ newline) /\
  read_fails (fs w_newline) = false /\
  _read_lock (the_lock w_newline) w_newline = Ret (Some 4242) w_newline [].
Proof.
  split; [reflexivity|]. split; [reflexivity|]. split; [reflexivity|]. split; [reflexivity|].
  apply (read_lock_skips_white_space (the_lock w_newline) w_newline " " newline 4242);
    reflexivity.
Defined.

(** X3 — What [_write_lock] writes, [_read_lock] reads back: whenever
    [_write_lock] returns, in a directory whose files can be read, a
    following [_read_lock] returns the identifier of the handle, for every
    integer identifier, and logs nothing. *)
Theorem write_lock_read_back self w w1 tr :
  _write_lock self w = Ret tt w1 tr -> read_fails (fs w) = false ->
  _read_lock self w1 = Ret (Some (pid self)) w1 [].
Proof.
  intros Hw Hr. destruct (can_write_lock w) eqn:Hc.
  - rewrite write_lock_ok in Hw by assumption. injection Hw as <- _.
    pose proof (recorded_pid_written self w Hr) as Hp.
    rewrite read_lock_run, Hp. now rewrite (read_trace_recorded _ _ Hp).
  - destruct (write_lock_fails self w Hc) as (w' & Hf & _). congruence.
Qed.

Lemma write_lock_read_back_witness :
  _write_lock (the_lock w_missing_dir) w_missing_dir =
    Ret tt (written (the_lock w_missing_dir) w_missing_dir) [EvLog Debug (WroteLockFile 100)]
  /\ read_fails (fs w_missing_dir) = false
  /\ _read_lock (the_lock w_missing_dir) (written (the_lock w_missing_dir) w_missing_dir) =
       Ret (Some (pid (the_lock w_missing_dir))) (written (the_lock w_missing_dir) w_missing_dir) [].
Proof.
  split; [reflexivity|]. split; [reflexivity|].
  apply (write_lock_read_back (the_lock w_missing_dir) w_missing_dir _
           [EvLog Debug (WroteLockFile 100)]); reflexivity.
Defined.


(** X5 — [_remove_lock] never raises: it returns in every world, without a
    signal and with the process table as it was; afterwards the lock file is
    gone, unless the operating system refused to delete it, in which case
    nothing has changed; and removing again changes nothing more. *)
Theorem remove_lock_never_fails self w :
  exists w1 tr,
    _remove_lock self w = Ret tt w1 tr
    /\ procs w1 = procs w /\ kill_calls tr = []
    /\ (lock_file (fs w1) = None \/ (unlink_fails (fs w) = true /\ w1 = w))
    /\ world_of (_remove_lock self w1) = w1.
Proof.
  exists (removed w), (remove_trace w).
  split; [apply remove_lock_run|]. split; [unfold removed; now repeat case_match|].
  split; [apply kill_calls_remove_trace|].
  rewrite remove_lock_run. simpl.
  unfold removed, without_lock_file.
  destruct w as [g m [d [content|] mk rd wr ul]]; simpl; [|auto].
  destruct ul; simpl; auto.
Qed.

(** ** Probing and terminating a process *)

Lemma tick_immortal w q c :
  procs w !! q = Some c -> exits_after c = None -> procs (tick w) !! q = Some c.
Proof.
  intros Hq Hc. rewrite lookup_tick, Hq. simpl. unfold age. rewrite Hc. now destruct (q =? getpid w).
Qed.

Lemma without_proc_other p q w : q <> p -> procs (without_proc p w) !! q = procs w !! q.
Proof. intros H. unfold without_proc. simpl. apply lookup_delete_ne. congruence. Qed.

(** X6 — The liveness probe harms no process and never fails on a number in
    the range of [pid_t], positive or not: [_process_exists] returns a
    boolean, [True] exactly when the null signal was accepted, and the world
    it leaves is the one in which a system call went by, nothing else: no
    process is ended by it and the file system is untouched.  For a positive
    identifier it answers [True] exactly when that process runs and the
    caller may signal it, so that a running process of another user is
    reported as not running.  A number outside [pid_t] makes it raise the
    [OverflowError] of [os.kill], which its [except OSError] does not
    catch. *)
Theorem process_exists_only_probes self p w :
  if in_pid_t p then
    exists b err,
      _process_exists self p w = Ret b (tick w) [EvKill p SIG0 err]
      /\ (b = true <-> err = None)
      /\ (0 < p -> (b = true <-> exists c, procs w !! p = Some c /\ may_signal w p c = true))
  else _process_exists self p w = Raise OverflowError w [EvKill p SIG0 (Some OverflowError)].
Proof.
  destruct (in_pid_t p) eqn:Hr; [|now apply process_exists_overflow].
  destruct (0 <? p) eqn:Hpos.
  - assert (is_pid p) as Hp by (unfold is_pid, in_pid_t in *; lia).
    rewrite process_exists_pid by assumption.
    eexists _, _. split; [reflexivity|].
    rewrite bool_decide_eq_true. split; [reflexivity|]. intros _.
    unfold probe_error. destruct (procs w !! p) as [c|].
    + destruct (may_signal w p c) eqn:Hs.
      * split; eauto.
      * split; [discriminate|]. intros (c' & [= <-] & Hs'). congruence.
    + split; [discriminate|]. now intros (c' & [=] & _).
  - destruct (process_exists_in_range self p w Hr) as [-> | [e ->]].
    + eexists _, _. split; [reflexivity|]. split; [tauto|lia].
    + eexists _, _. split; [reflexivity|]. split; [|lia]. split; discriminate.
Qed.

(** X7 — The order of the signals in [_kill_process], for every argument and
    every state of the process table: the first call of [os.kill] is always
    the SIGTERM, sent once; the only other calls are one probe with the null
    signal, after the sleep of one second, and then at most one SIGKILL.  The
    SIGKILL is sent only when the SIGTERM was delivered, the grace period is
    over and the probe has found the process still running. *)
Theorem kill_process_signal_order self p w :
  let tr := trace_of (_kill_process self p w) in
  kill_calls tr = [(p, SIGTERM)]
  \/ (kill_calls tr = [(p, SIGTERM); (p, SIG0)] /\ In (EvSleep 1) tr
      /\ In (EvKill p SIGTERM None) tr)
  \/ (kill_calls tr = [(p, SIGTERM); (p, SIG0); (p, SIGKILL)]
      /\ exists err after,
           tr = [EvLog Info (SendingSigterm p); EvKill p SIGTERM None; EvSleep 1;
                 EvKill p SIG0 None; EvLog Warning (NoResponseSendingSigkill p);
                 EvKill p SIGKILL err] ++ after).
Proof.
  cbv zeta. destruct (kill_process_run self p w); cbn [trace_of].
  - left; reflexivity.
  - left; reflexivity.
  - left; reflexivity.
  - right; left. simpl. auto 10.
  - right; right. split; [reflexivity|]. eexists _, _. reflexivity.
  - right; right. split; [reflexivity|]. eexists _, _. reflexivity.
  - right; right. split; [reflexivity|]. exists None, []. reflexivity.
Qed.

(** [_kill_process] on a process that the caller may signal and that runs
    until it is killed. *)
Lemma kill_process_signalable self p w c :
  is_pid p -> p <> getpid w ->
  procs w !! p = Some c -> may_signal w p c = true -> exits_after c = None ->
  exists w' tr,
    _kill_process self p w = Ret true w' tr
    /\ procs w' !! p = None
    /\ fs w' = fs w
    /\ (forall q d, q <> p -> procs w !! q = Some d -> exits_after d = None ->
                    procs w' !! q = Some d)
    /\ kill_calls tr =
         match on_term c with
         | TermExits => [(p, SIGTERM); (p, SIG0)]
         | TermStays => [(p, SIGTERM); (p, SIG0); (p, SIGKILL)]
         end.
Proof.
  intros Hp Hself Hc Hs Hex. apply Z.eqb_neq in Hself.
  rewrite kill_process_pid by assumption. cbv zeta. rewrite Hc, Hs, Hself.
  cbn [fatal]. destruct (on_term c) eqn:Hterm.
  - eexists _, _. split; [reflexivity|].
    split; [do 3 apply tick_absent; apply without_proc_absent|].
    split; [reflexivity|]. split; [|reflexivity].
    intros q d Hq Hd Hdx. do 3 (apply tick_immortal; [|assumption]).
    now rewrite without_proc_other.
  - pose proof (tick_immortal _ _ _ (tick_immortal _ _ _ Hc Hex) Hex) as Hc2.
    pose proof (tick_immortal _ _ _ Hc2 Hex) as Hc3.
    assert (forall w', getpid w' = getpid w -> may_signal w' p c = true) as Hs'.
    { intros w' Hg. unfold may_signal in *. now rewrite Hg. }
    unfold probe_error. rewrite Hc2, (Hs' (tick (tick w)) eq_refl), Hc3,
      (Hs' (tick (tick (tick w))) eq_refl).
    eexists _, _. split; [reflexivity|].
    split; [apply tick_absent, without_proc_absent|].
    split; [reflexivity|]. split; [|reflexivity].
    intros q d Hq Hd Hdx. apply tick_immortal; [|assumption].
    rewrite without_proc_other by assumption.
    do 3 (apply tick_immortal; [|assumption]). assumption.
Qed.



(** ** Every run of [acquire] *)

Lemma acquire_path self w : AcquirePath self w (acquire self w).
Proof.
  destruct (truthy (recorded_pid w)) eqn:Ht.
  - destruct (recorded_pid w) as [p|] eqn:Hr; [|discriminate].
    assert (p <> 0) as Hp0 by (intros ->; discriminate).
    destruct (in_pid_t p) eqn:Hrange.
    + rewrite (acquire_owner self w p Hr Hp0).
      destruct (process_exists_in_range self p w Hrange) as [Hx | [e Hx]]; rewrite Hx.
      * rewrite prepend_prepend. now apply AcqLive.
      * rewrite prepend_prepend. now apply AcqStale.
    + rewrite (acquire_owner_overflow self w p Hr Hrange). now apply AcqOverflow.
  - rewrite (acquire_no_owner self w Ht). now apply AcqNoOwner.
Qed.

Lemma write_directly_cases self w :
  (can_write_lock w = true /\
   write_directly self w =
     Ret tt (written self w)
       [EvLog Debug (WroteLockFile (pid self)); EvLog Info (AcquiredLock (pid self))])
  \/ (can_write_lock w = false /\
      exists w', write_directly self w = Raise (McpLockError FailedToWriteLockFile) w' []
                 /\ lock_file (fs w') = lock_file (fs w) /\ procs w' = procs w).
Proof.
  destruct (can_write_lock w) eqn:Hc; [left|right]; split; try reflexivity.
  - now apply write_directly_ok.
  - now apply write_directly_fails.
Qed.





(** X10 — What a successful [acquire] guarantees, on every path: whenever
    [acquire] returns, the directory exists, the lock file holds exactly
    [str(pid)] of the handle, whatever it held before, and, the file being
    readable, [_read_lock] gives the handle's identifier back. *)
Theorem acquire_records_handle self w w' tr :
  acquire self w = Ret tt w' tr ->
  lock_file (fs w') = Some (py_str (pid self))
  /\ dir_exists (fs w') = true
  /\ (read_fails (fs w) = false ->
      _read_lock self w' = Ret (Some (pid self)) w' []).
Proof.
  intros Ha. destruct (acquire_Ret_written self w w' tr Ha) as (w1 & -> & _).
  split; [reflexivity|]. split; [reflexivity|]. intros Hr.
  pose proof (acquire_same_conditions self w) as (_ & _ & Hrf & _).
  rewrite Ha in Hrf. simpl in Hrf. rewrite Hr in Hrf.
  pose proof (recorded_pid_written self w1 Hrf) as Hp.
  rewrite read_lock_run, Hp. now rewrite (read_trace_recorded _ _ Hp).
Qed.

Lemma acquire_records_handle_witness :
  let r := acquire (the_lock w_live) w_live in
  r = Ret tt (world_of r) (trace_of r)
  /\ lock_file (fs (world_of r)) = Some (py_str (pid (the_lock w_live)))
  /\ dir_exists (fs (world_of r)) = true
  /\ (read_fails (fs w_live) = false ->
      _read_lock (the_lock w_live) (world_of r) = Ret (Some (pid (the_lock w_live))) (world_of r) []).
Proof.
  cbv zeta. split; [vm_compute; reflexivity|].
  apply (acquire_records_handle (the_lock w_live) w_live _
           (trace_of (acquire (the_lock w_live) w_live))).
  vm_compute; reflexivity.
Defined.

(** ** The signals of [acquire] *)

Lemma kill_calls_prepend {A} tr (r : Result A) :
  kill_calls (trace_of (prepend tr r)) = kill_calls tr ++ kill_calls (trace_of r).
Proof. now rewrite trace_of_prepend, kill_calls_app. Qed.

Lemma in_pid_t_nonzero p : in_pid_t p = false -> (p =? 0) = false.
Proof. unfold in_pid_t. lia. Qed.

(** X11 — Every signal of [acquire] goes to the recorded identifier, in a
    fixed order.  When the lock file gives no identifier, or gives [0],
    [acquire] calls [os.kill] not at all.  Otherwise its calls of [os.kill]
    are a beginning of: the probe, SIGTERM, the probe again, SIGKILL, all
    four with the recorded number as their argument and starting with the
    probe; no other process identifier is ever passed to [os.kill]. *)
Theorem acquire_signals_recorded_pid_only self w :
  let calls := kill_calls (trace_of (acquire self w)) in
  match recorded_pid w with
  | Some p =>
      if p =? 0 then calls = []
      else exists n, (0 < n)%nat
                     /\ calls = take n [(p, SIG0); (p, SIGTERM); (p, SIG0); (p, SIGKILL)]
  | None => calls = []
  end.
Proof.
  cbv zeta.
  destruct (acquire_path self w) as [Ht|p Hr Hrange|p e0 Hr Hp0 Hrange Hx|p Hr Hp0 Hrange Hx].
  - assert (kill_calls (trace_of (prepend (EvLog Debug AcquiringLock :: read_trace w)
                                    (write_directly self w))) = []) as Hcalls.
    { rewrite kill_calls_prepend, kill_calls_write_directly, app_nil_r.
      apply kill_calls_read_trace. }
    destruct (recorded_pid w) as [p|]; [|exact Hcalls].
    simpl in Ht. apply negb_false_iff in Ht. now rewrite Ht.
  - rewrite Hr, (in_pid_t_nonzero p Hrange). exists 1%nat. split; [lia|reflexivity].
  - rewrite Hr. apply Z.eqb_neq in Hp0. rewrite Hp0.
    exists 1%nat. split; [lia|].
    rewrite kill_calls_prepend, kill_calls_take_over. reflexivity.
  - rewrite Hr. apply Z.eqb_neq in Hp0. rewrite Hp0.
    rewrite kill_calls_prepend.
    destruct (kill_process_run self p (tick w)); cbn [trace_of];
      rewrite ?kill_calls_prepend, ?kill_calls_take_over.
    + exists 2%nat. split; [lia|reflexivity].
    + exists 2%nat. split; [lia|reflexivity].
    + exists 2%nat. split; [lia|reflexivity].
    + exists 3%nat. split; [lia|reflexivity].
    + exists 4%nat. split; [lia|reflexivity].
    + exists 4%nat. split; [lia|reflexivity].
    + exists 4%nat. split; [lia|reflexivity].
Qed.

(** ** The processes that [acquire] leaves alone *)

Lemma kill_process_spares self p w q c :
  is_pid p -> q <> p -> procs w !! q = Some c -> exits_after c = None ->
  procs (world_of (_kill_process self p w)) !! q = Some c.
Proof.
  intros Hp Hq Hc Hex. rewrite kill_process_pid by assumption. cbv zeta.
  repeat case_match; cbn [world_of];
    repeat first [ apply tick_immortal; [|assumption]
                 | rewrite without_proc_other by assumption ];
    assumption.
Qed.

Lemma write_directly_procs self w : procs (world_of (write_directly self w)) = procs w.
Proof.
  destruct (write_directly_cases self w) as [[_ ->] | [_ (w' & -> & _ & Hp)]]; [reflexivity|exact Hp].
Qed.

(** X12 — [acquire] signals nobody but the recorded process.  When the
    lock file records no negative number, every other process that runs
    until it is killed is still running after [acquire], however the run
    ends. *)
Theorem acquire_spares_other_processes self w q c :
  (forall p, recorded_pid w = Some p -> 0 <= p /\ p <> q) ->
  procs w !! q = Some c -> exits_after c = None ->
  procs (world_of (acquire self w)) !! q = Some c.
Proof.
  intros Hrec Hc Hex.
  destruct (acquire_path self w) as [Ht|p Hr Hrange|p e0 Hr Hp0 Hrange Hx|p Hr Hp0 Hrange Hx].
  - now rewrite world_of_prepend, write_directly_procs.
  - exact Hc.
  - rewrite world_of_prepend, take_over_procs. now apply tick_immortal.
  - destruct (Hrec p Hr) as [Hpos Hq].
    assert (is_pid p) as Hp by (unfold is_pid, in_pid_t in *; lia).
    pose proof (kill_process_spares self p (tick w) q c Hp (not_eq_sym Hq)
                  (tick_immortal _ _ _ Hc Hex) Hex) as Hk.
    rewrite world_of_prepend.
    destruct (_kill_process self p (tick w)) as [[|] w2 tr2|e2 w2 tr2|w2 tr2]; cbn [world_of] in *;
      try exact Hk.
    now rewrite world_of_prepend, take_over_procs.
Qed.

Lemma acquire_spares_other_processes_witness :
  (forall p, recorded_pid w_bystander = Some p -> 0 <= p /\ p <> 7) /\
  procs w_bystander !! 7 = Some bystander /\ exits_after bystander = None /\
  procs (world_of (acquire (the_lock w_bystander) w_bystander)) !! 7 = Some bystander.
Proof.
  assert (forall p, recorded_pid w_bystander = Some p -> 0 <= p /\ p <> 7) as H
    by (intros p Hp; vm_compute in Hp; injection Hp as <-; lia).
  split; [exact H|]. split; [reflexivity|]. split; [reflexivity|].
  apply (acquire_spares_other_processes (the_lock w_bystander) w_bystander 7 bystander H);
    reflexivity.
Defined.

(** ** [release] in every world *)

Lemma release_run self w :
  release self w =
    if bool_decide (recorded_pid w = Some (pid self)) then
      Ret tt (removed w)
        (EvLog Debug (ReleasingLock (pid self)) :: remove_trace w ++ [EvLog Info ReleasedLock])
    else
      Ret tt w
        (EvLog Debug (ReleasingLock (pid self)) :: read_trace w ++
         [EvLog Warning (PidMismatch (recorded_pid w) (pid self))]).
Proof.
  destruct (decide (recorded_pid w = Some (pid self))) as [Hr|Hr].
  - rewrite bool_decide_eq_true_2 by assumption. now apply release_owner.
  - rewrite bool_decide_eq_false_2 by assumption.
    unfold release, bind, log. rewrite read_lock_run. cbn.
    now rewrite bool_decide_eq_false_2 by assumption.
Qed.


Lemma removed_owner w p :
  recorded_pid w = Some p ->
  removed w = if unlink_fails (fs w) then w else without_lock_file w.
Proof.
  unfold recorded_pid, content_pid, removed.
  destruct (lock_file (fs w)); [reflexivity|]. now destruct (read_fails (fs w)).
Qed.


(** X14 — Releasing twice is releasing once: a second [release] on the same
    handle changes nothing. *)
Theorem release_idempotent self w :
  world_of (release self (world_of (release self w))) = world_of (release self w).
Proof.
  rewrite (release_run self w). case_bool_decide as Hr; cbn [world_of].
  - rewrite (removed_owner w _ Hr). destruct (unlink_fails (fs w)) eqn:Hu.
    + rewrite release_run, bool_decide_eq_true_2 by assumption. cbn [world_of].
      rewrite (removed_owner w _ Hr). now rewrite Hu.
    + rewrite release_run, bool_decide_eq_false_2; [reflexivity|].
      now rewrite recorded_pid_without_lock_file.
  - rewrite release_run, bool_decide_eq_false_2 by assumption. reflexivity.
Qed.

(** X15 — A handle that has lost the lock cannot delete the record of the
    new owner: once [acquire] has returned for another handle, with another
    identifier, [release] on this handle returns with the world unchanged,
    the lock file still holding the identifier of the other handle. *)
Theorem release_after_losing_lock self other w w' tr :
  acquire other w = Ret tt w' tr -> pid self <> pid other ->
  exists tr', release self w' = Ret tt w' tr'
              /\ lock_file (fs w') = Some (py_str (pid other)).
Proof.
  intros Ha Hne.
  destruct (acquire_Ret_written other w w' tr Ha) as (w1 & -> & _).
  assert (recorded_pid (written other w1) <> Some (pid self)) as Hr.
  { destruct (read_fails (fs w1)) eqn:Hrf.
    - unfold recorded_pid. simpl. rewrite Hrf. discriminate.
    - rewrite (recorded_pid_written other w1 Hrf). congruence. }
  rewrite release_run, bool_decide_eq_false_2 by assumption. eauto.
Qed.

Lemma release_after_losing_lock_witness :
  acquire (mkLock ".agent-memory" 100) w_live =
    Ret tt (world_of (acquire (mkLock ".agent-memory" 100) w_live))
      (trace_of (acquire (mkLock ".agent-memory" 100) w_live))
  /\ pid (mkLock ".agent-memory" 4242) <> pid (mkLock ".agent-memory" 100)
  /\ exists tr',
       release (mkLock ".agent-memory" 4242)
           (world_of (acquire (mkLock ".agent-memory" 100) w_live)) =
         Ret tt (world_of (acquire (mkLock ".agent-memory" 100) w_live)) tr'
       /\ lock_file (fs (world_of (acquire (mkLock ".agent-memory" 100) w_live))) =
            Some (py_str (pid (mkLock ".agent-memory" 100))).
Proof.
  split; [vm_compute; reflexivity|]. split; [vm_compute; discriminate|].
  apply (release_after_losing_lock (mkLock ".agent-memory" 4242) (mkLock ".agent-memory" 100)
           w_live _ (trace_of (acquire (mkLock ".agent-memory" 100) w_live)));
    [vm_compute; reflexivity | vm_compute; discriminate].
Defined.

(** ** The lock as a context manager *)

(** X16 — The block of a [with] statement is not entered when [acquire]
    fails: if [acquire] does not return, the [with] statement ends as
    [acquire] ended, in the same world and with the same events, whatever the
    block is; in particular [release] is not called and the lock file of
    another owner is not deleted. *)
Theorem with_lock_not_entered self body w :
  outcome (acquire self w) <> Returned tt ->
  with_lock self body w = acquire self w.
Proof.
  intros Ho. unfold with_lock, __enter__, bind.
  destruct (acquire self w) as [[] w1 tr1|e w1 tr1|w1 tr1]; [now destruct Ho|reflexivity..].
Qed.

Lemma with_lock_not_entered_witness :
  outcome (acquire (the_lock w_exiting) w_exiting) <> Returned tt /\
  with_lock (the_lock w_exiting) (fun _ => lock_file_unlink) w_exiting =
    acquire (the_lock w_exiting) w_exiting.
Proof.
  split; [vm_compute; discriminate|].
  apply (with_lock_not_entered (the_lock w_exiting) (fun _ => lock_file_unlink) w_exiting).
  vm_compute; discriminate.
Defined.

Lemma with_lock_entered self body w w1 tr1 :
  acquire self w = Ret tt w1 tr1 ->
  with_lock self body w =
    prepend tr1
      match body self w1 with
      | Ret _ w2 tr2 => prepend tr2 (release self w2)
      | Raise e w2 tr2 =>
          prepend tr2
            match release self w2 with
            | Ret _ w3 tr3 => Raise e w3 tr3
            | r => r
            end
      | Died w2 tr2 => Died w2 tr2
      end.
Proof.
  intros Ha. unfold with_lock, __enter__, __exit__. set (rel := release self).
  unfold bind, ret, raise. rewrite Ha. cbn [prepend app]. rewrite ?app_nil_r.
  destruct (body self w1) as [[] w2 tr2|e w2 tr2|w2 tr2]; [| |reflexivity].
  - destruct (rel w2) as [[] w3 tr3|e w3 tr3|w3 tr3]; cbn [prepend app]; now rewrite ?app_nil_r.
  - destruct (rel w2) as [[] w3 tr3|e3 w3 tr3|w3 tr3]; cbn [prepend app]; now rewrite ?app_nil_r.
Qed.

(** X17 — The lock is released when the block of the [with] statement is
    left, normally or by an exception: once [acquire] has returned, for a
    block that leaves the file system alone, in a directory whose lock file
    can be read and deleted, the [with] statement ends as the block ended,
    an exception of the block being raised again ([__exit__] returns
    [False]), and the lock file is gone.  Only when the caller is killed
    inside the block does the lock file stay behind. *)
Theorem with_lock_releases_on_exit self body w w1 tr1 :
  acquire self w = Ret tt w1 tr1 ->
  fs (world_of (body self w1)) = fs w1 ->
  read_fails (fs w) = false -> unlink_fails (fs w) = false ->
  outcome (with_lock self body w) = outcome (body self w1)
  /\ lock_file (fs (world_of (with_lock self body w))) =
       match outcome (body self w1) with
       | Killed => Some (py_str (pid self))
       | _ => None
       end.
Proof.
  intros Ha Hbody Hrf Huf.
  pose proof (acquire_same_conditions self w) as (_ & _ & Hrf1 & _ & Huf1).
  rewrite Ha in Hrf1, Huf1. cbn [world_of] in Hrf1, Huf1. rewrite Hrf in Hrf1. rewrite Huf in Huf1.
  destruct (acquire_Ret_written self w w1 tr1 Ha) as (w0 & Hw1 & _).
  assert (forall w2, fs w2 = fs w1 ->
            release self w2 =
              Ret tt (without_lock_file w2)
                (EvLog Debug (ReleasingLock (pid self)) :: remove_trace w2 ++ [EvLog Info ReleasedLock]))
    as Hrel.
  { intros w2 Hfs.
    assert (recorded_pid w2 = Some (pid self)) as Hr.
    { unfold recorded_pid, content_pid. rewrite Hfs, Hrf1, Hw1. simpl. apply py_int_py_str. }
    rewrite release_run, bool_decide_eq_true_2 by assumption.
    rewrite (removed_owner w2 _ Hr), Hfs, Huf1. reflexivity. }
  rewrite (with_lock_entered self body w w1 tr1 Ha).
  destruct (body self w1) as [[] w2 tr2|e w2 tr2|w2 tr2]; cbn [world_of outcome] in *.
  - rewrite (Hrel w2 Hbody). split; reflexivity.
  - rewrite (Hrel w2 Hbody). split; reflexivity.
  - split; [reflexivity|]. cbn [prepend world_of]. rewrite Hbody, Hw1. reflexivity.
Qed.

Lemma with_lock_releases_on_exit_witness :
  let self := the_lock w_missing_dir in
  let body := fun _ : McpServerLock => @raise unit ValueError in
  acquire self w_missing_dir =
    Ret tt (written self w_missing_dir)
      [EvLog Debug AcquiringLock; EvLog Debug (WroteLockFile 100); EvLog Info (AcquiredLock 100)]
  /\ fs (world_of (body self (written self w_missing_dir))) = fs (written self w_missing_dir)
  /\ read_fails (fs w_missing_dir) = false /\ unlink_fails (fs w_missing_dir) = false
  /\ outcome (with_lock self body w_missing_dir) = outcome (body self (written self w_missing_dir))
  /\ lock_file (fs (world_of (with_lock self body w_missing_dir))) =
       match outcome (body self (written self w_missing_dir)) with
       | Killed => Some (py_str (pid self))
       | _ => None
       end.
Proof.
  cbv zeta. split; [reflexivity|]. split; [reflexivity|]. split; [reflexivity|].
  split; [reflexivity|].
  apply (with_lock_releases_on_exit (the_lock w_missing_dir) (fun _ => @raise unit ValueError)
           w_missing_dir (written (the_lock w_missing_dir) w_missing_dir)
           [EvLog Debug AcquiringLock; EvLog Debug (WroteLockFile 100);
            EvLog Info (AcquiredLock 100)]); reflexivity.
Defined.

(** ** The caller across a run *)

Lemma keeps_caller_refl w : keeps_caller w w.
Proof. split; auto. Qed.

Lemma keeps_caller_trans w1 w2 w3 : keeps_caller w1 w2 -> keeps_caller w2 w3 -> keeps_caller w1 w3.
Proof.
  intros [Hg1 Hc1] [Hg2 Hc2]. split; [congruence|].
  intros c Hc. rewrite <- Hg1. apply Hc2. rewrite Hg1. now apply Hc1.
Qed.

Lemma keeps_caller_tick w : keeps_caller w (tick w).
Proof. split; [reflexivity|]. intros c. apply tick_self. Qed.

Lemma os_kill_keeps_caller p sig w w' tr :
  os_kill p sig w = Ret tt w' tr -> keeps_caller w w'.
Proof.
  intros H. pose proof (os_kill_outcome p sig w) as Ho. rewrite H in Ho.
  inversion Ho as [w0 _ [_ Hg] Hc| | |]; subst. split; assumption.
Qed.

Lemma kill_process_keeps_caller self p w b w' tr :
  _kill_process self p w = Ret b w' tr -> keeps_caller w w'.
Proof.
  destruct (kill_process_run self p w) as [|e| |w1 e H1|w1 w3 H1 H3|w1 e H1|];
    intros [= <- <- <-];
    try apply os_kill_keeps_caller in H1; try apply os_kill_keeps_caller in H3.
  - apply keeps_caller_tick.
  - repeat (eapply keeps_caller_trans; [|apply keeps_caller_tick]). exact H1.
  - eapply keeps_caller_trans; [|exact H3].
    repeat (eapply keeps_caller_trans; [|apply keeps_caller_tick]). exact H1.
  - repeat (eapply keeps_caller_trans; [|apply keeps_caller_tick]). exact H1.
Qed.

Lemma take_over_keeps_caller self w : keeps_caller w (world_of (take_over self w)).
Proof.
  pose proof (take_over_procs self w) as Hp.
  pose proof (preserves_bind same_conditions (_remove_lock self) (fun _ => write_directly self)) as Hg.
  assert (getpid (world_of (take_over self w)) = getpid w) as Hpid.
  { apply Hg; [apply remove_lock_same_conditions|].
    intros _. unfold write_directly. apply preserves_bind; try apply _.
    - apply write_lock_same_conditions.
    - intros _. apply preserves_log. apply _. }
  split; [exact Hpid|]. intros c Hc. now rewrite Hp.
Qed.

Lemma write_directly_keeps_caller self w : keeps_caller w (world_of (write_directly self w)).
Proof.
  split.
  - destruct (write_directly_cases self w) as [[_ ->] | [Hc _]]; [reflexivity|].
    unfold write_directly, bind.
    pose proof (write_lock_same_conditions self w) as [Hg _].
    destruct (_write_lock self w) as [[] w1 tr1|e w1 tr1|w1 tr1]; exact Hg.
  - intros c Hc. now rewrite write_directly_procs.
Qed.

(** When [acquire] returns, the caller is still running. *)
Lemma acquire_keeps_caller self w w' tr :
  acquire self w = Ret tt w' tr -> keeps_caller w w'.
Proof.
  destruct (acquire_path self w) as [Ht|p Hr Hrange|p e0 Hr Hp0 Hrange Hx|p Hr Hp0 Hrange Hx];
    intros Ha.
  - pose proof (write_directly_keeps_caller self w) as Hk.
    destruct (write_directly self w); cbn [prepend world_of] in *; simplify_eq. exact Hk.
  - discriminate.
  - pose proof (take_over_keeps_caller self (tick w)) as Hk.
    destruct (take_over self (tick w)); cbn [prepend world_of] in *; simplify_eq.
    eapply keeps_caller_trans; [apply keeps_caller_tick|exact Hk].
  - destruct (_kill_process self p (tick w)) as [[|] w2 tr2|e2 w2 tr2|w2 tr2] eqn:Hkp;
      try discriminate.
    apply kill_process_keeps_caller in Hkp.
    pose proof (take_over_keeps_caller self w2) as Hk.
    destruct (take_over self w2); cbn [prepend world_of] in *; simplify_eq.
    eapply keeps_caller_trans; [apply keeps_caller_tick|].
    eapply keeps_caller_trans; [exact Hkp|exact Hk].
Qed.

(** A caller that finds its own identifier in the lock file does not
    survive [acquire]. *)
Lemma acquire_own_record_ends_caller self w c :
  recorded_pid w = Some (getpid w) -> is_pid (getpid w) ->
  procs w !! getpid w = Some c ->
  outcome (acquire self w) = Killed
  /\ In (EvKill (getpid w) SIGTERM None) (trace_of (acquire self w)).
Proof.
  intros Hr Hp Hc.
  assert (forall w', getpid w' = getpid w -> procs w' !! getpid w = Some c ->
                     probe_error w' (getpid w) = None) as Hprobe.
  { intros w' Hg Hc'. unfold probe_error, may_signal. now rewrite Hc', Hg, Z.eqb_refl. }
  assert (procs (tick w) !! getpid w = Some c) as Hc1 by exact (tick_self w c Hc).
  assert (procs (tick (tick w)) !! getpid w = Some c) as Hc2
    by exact (tick_self (tick w) c Hc1).
  assert (procs (tick (tick (tick w))) !! getpid w = Some c) as Hc3
    by exact (tick_self (tick (tick w)) c Hc2).
  assert (procs (tick (tick (tick (tick w)))) !! getpid w = Some c) as Hc4
    by exact (tick_self (tick (tick (tick w))) c Hc3).
  rewrite (acquire_owner_pid self w _ Hr Hp), (Hprobe w eq_refl Hc).
  rewrite kill_process_pid by assumption. cbv zeta.
  change (getpid (tick w)) with (getpid w). rewrite Hc1.
  unfold may_signal. change (getpid (tick w)) with (getpid w).
  change (getpid (tick (tick (tick (tick w))))) with (getpid w).
  rewrite Z.eqb_refl. cbn [orb fatal].
  destruct (on_term c); [split; [reflexivity|simpl; auto 10]|].
  rewrite (Hprobe (tick (tick (tick w))) eq_refl Hc3), Hc4.
  split; [reflexivity|simpl; auto 10].
Qed.

(** X18 — [acquire] is not re-entrant.  When [acquire] has returned for the
    handle of the running process, in a directory whose lock file can be
    read, a second [acquire] on that handle never returns: it finds the
    record it wrote itself, takes it for the record of another server and
    delivers SIGTERM to the calling process, which is terminated. *)
Theorem acquire_again_ends_caller self w w1 tr1 c :
  acquire self w = Ret tt w1 tr1 ->
  pid self = getpid w -> is_pid (getpid w) -> procs w !! getpid w = Some c ->
  read_fails (fs w) = false ->
  outcome (acquire self w1) = Killed
  /\ In (EvKill (getpid w) SIGTERM None) (trace_of (acquire self w1)).
Proof.
  intros Ha Hpid Hp Hc Hrf.
  destruct (acquire_keeps_caller self w w1 tr1 Ha) as [Hg Hc1].
  destruct (acquire_Ret_written self w w1 tr1 Ha) as (w0 & Hw1 & _).
  pose proof (acquire_same_conditions self w) as (_ & _ & Hrf1 & _).
  rewrite Ha in Hrf1. cbn [world_of] in Hrf1. rewrite Hrf in Hrf1.
  assert (recorded_pid w1 = Some (getpid w1)) as Hr.
  { rewrite Hg, <- Hpid. subst w1. apply recorded_pid_written. exact Hrf1. }
  rewrite <- Hg.
  apply (acquire_own_record_ends_caller self w1 c Hr); rewrite Hg; auto.
Qed.

Lemma acquire_again_ends_caller_witness :
  let self := the_lock w_stale in
  let r := acquire self w_stale in
  r = Ret tt (world_of r) (trace_of r)
  /\ pid self = getpid w_stale /\ is_pid (getpid w_stale)
  /\ procs w_stale !! getpid w_stale = Some (the_caller TermExits)
  /\ read_fails (fs w_stale) = false
  /\ outcome (acquire self (world_of r)) = Killed
  /\ In (EvKill (getpid w_stale) SIGTERM None) (trace_of (acquire self (world_of r))).
Proof.
  cbv zeta. split; [vm_compute; reflexivity|]. split; [reflexivity|].
  split; [unfold is_pid; simpl; lia|]. split; [reflexivity|]. split; [reflexivity|].
  apply (acquire_again_ends_caller (the_lock w_stale) w_stale _
           (trace_of (acquire (the_lock w_stale) w_stale)) (the_caller TermExits));
    [vm_compute; reflexivity | reflexivity | unfold is_pid; simpl; lia | reflexivity | reflexivity].
Defined.

(** ** One server after the other *)

Lemma can_write_written self w : can_write_lock w = true -> can_write_lock (written self w) = true.
Proof.
  unfold can_write_lock. simpl. intros [_ H]%andb_prop. now rewrite H.
Qed.

Lemma termination_calls_take_over self w : termination_calls (trace_of (take_over self w)) = [].
Proof. apply termination_calls_kill_calls, kill_calls_take_over. Qed.

(** X19 — The last server to start wins.  Let a first server acquire the
    lock, and let a second process then construct a handle for the same
    directory and acquire it, the first server still running, with the same
    user (the second may signal it), and the lock file readable.  Then the
    second [acquire] returns; it has invoked the termination routine once,
    for the first server; the first server is no longer running; and the
    lock file holds the identifier of the second process. *)
Theorem second_server_takes_over dir w w1 tr1 b ca :
  acquire (McpServerLock_init dir w) w = Ret tt w1 tr1 ->
  is_pid (getpid w) -> procs w !! getpid w = Some ca ->
  exits_after ca = None -> permitted ca = true ->
  b <> getpid w -> read_fails (fs w) = false ->
  exists w2 tr2,
    acquire (McpServerLock_init dir (as_caller b w1)) (as_caller b w1) = Ret tt w2 tr2
    /\ procs w2 !! getpid w = None
    /\ lock_file (fs w2) = Some (py_str b)
    /\ termination_calls tr2 = [getpid w].
Proof.
  intros Ha Hp Hc Hex Hperm Hb Hrf.
  set (a := getpid w) in *. set (first := McpServerLock_init dir w) in *.
  set (wb := as_caller b w1). set (second := McpServerLock_init dir wb).
  destruct (acquire_keeps_caller first w w1 tr1 Ha) as [Hg Hc1]. specialize (Hc1 ca Hc).
  destruct (acquire_Ret_written first w w1 tr1 Ha) as (w0 & Hw1 & Hcw0).
  pose proof (acquire_same_conditions first w) as (_ & _ & Hrf1 & _).
  rewrite Ha in Hrf1. cbn [world_of] in Hrf1. rewrite Hrf in Hrf1.
  assert (recorded_pid wb = Some a) as Hr.
  { change (recorded_pid wb) with (recorded_pid w1). subst w1.
    now rewrite recorded_pid_written by exact Hrf1. }
  assert (can_write_lock wb = true) as Hcw.
  { change (can_write_lock wb) with (can_write_lock w1). subst w1. now apply can_write_written. }
  assert (forall w', getpid w' = b -> may_signal w' a ca = true) as Hsig.
  { intros w' Hg'. unfold may_signal. rewrite Hperm. apply orb_true_r. }
  assert (procs wb !! a = Some ca) as Hcb by exact Hc1.
  rewrite (acquire_owner_pid second wb a Hr Hp).
  unfold probe_error. rewrite Hcb, (Hsig wb eq_refl).
  destruct (kill_process_signalable second a (tick wb) ca Hp) as
    (w' & tr' & Hk & Hgone & Hfs & _ & _);
    [exact (not_eq_sym Hb) | now apply tick_immortal | now apply Hsig | assumption |].
  pose proof (kill_process_termination_calls second a (tick wb) Hp) as Hterm.
  rewrite Hk in *. cbn [trace_of] in Hterm.
  assert (can_write_lock w' = true) as Hcw'.
  { rewrite <- Hcw. unfold can_write_lock. now rewrite Hfs. }
  pose proof (termination_calls_take_over second w') as Hto.
  rewrite (take_over_ok second w' Hcw') in *. cbn [prepend trace_of] in *.
  eexists _, _. split; [reflexivity|]. split; [exact Hgone|]. split; [reflexivity|].
  change (termination_calls
            ([EvLog Debug AcquiringLock; EvKill a SIG0 None; EvLog Warning (FoundRunningServer a)] ++
             tr' ++ remove_trace w' ++
             [EvLog Debug (WroteLockFile (pid second)); EvLog Info (AcquiredLock (pid second))]) = [a]).
  do 2 rewrite termination_calls_app. rewrite Hterm, Hto. reflexivity.
Qed.

Lemma second_server_takes_over_witness :
  let r := acquire (McpServerLock_init ".agent-memory" w_first) w_first in
  r = Ret tt (world_of r) (trace_of r)
  /\ is_pid (getpid w_first) /\ procs w_first !! getpid w_first = Some (a_server true TermStays None)
  /\ exits_after (a_server true TermStays None) = None
  /\ permitted (a_server true TermStays None) = true
  /\ 100 <> getpid w_first /\ read_fails (fs w_first) = false
  /\ exists w2 tr2,
       acquire (McpServerLock_init ".agent-memory" (as_caller 100 (world_of r)))
           (as_caller 100 (world_of r)) = Ret tt w2 tr2
       /\ procs w2 !! getpid w_first = None
       /\ lock_file (fs w2) = Some (py_str 100)
       /\ termination_calls tr2 = [getpid w_first].
Proof.
  cbv zeta. split; [vm_compute; reflexivity|]. split; [unfold is_pid; simpl; lia|].
  split; [reflexivity|]. split; [reflexivity|]. split; [reflexivity|].
  split; [simpl; lia|]. split; [reflexivity|].
  apply (second_server_takes_over ".agent-memory" w_first _
           (trace_of (acquire (McpServerLock_init ".agent-memory" w_first) w_first))
           100 (a_server true TermStays None));
    [vm_compute; reflexivity | unfold is_pid; simpl; lia | reflexivity | reflexivity
    | reflexivity | simpl; lia | reflexivity].
Defined.

(** * Properties of the agent controls *)

Section AgentControls.
Import Py.

Ltac run_controls :=
  unfold fork_extensions.check_agent_controls, fork_extensions.read_agent_controls,
    project_context.check_agent_controls, project_context.read_agent_controls,
    result, bind, lift, ret, raise, say, get, contains; cbn.

Ltac split_controls :=
  repeat (case_match; cbn in *; simplify_eq);
  try (rewrite andb_false_r in *; discriminate);
  try (rewrite andb_true_r in *; congruence).



(** X21 — A pause blocks writing only, in both modules: for every project
    and every state of the controls file, reading and writing get the same
    answer (both allowed, or both refused with the same exception), except
    that writing may be refused with the paused message while reading is
    allowed.  In particular nothing that allows a write refuses a read. *)
Theorem pause_blocks_writes_only project_name controls_file config_dir :
  (let read := result (fork_extensions.check_agent_controls project_name controls_file
                         fork_extensions.READ) in
   let write := result (fork_extensions.check_agent_controls project_name controls_file
                          fork_extensions.WRITE) in
   read = write
   \/ (read = inr tt
       /\ write = inl (PermissionError (fork_extensions.paused_message project_name))))
  /\
  (let read := result (project_context.check_agent_controls config_dir controls_file
                         project_name project_context.READ) in
   let write := result (project_context.check_agent_controls config_dir controls_file
                          project_name project_context.WRITE) in
   read = write
   \/ (read = inr tt
       /\ write = inl (PermissionError
                         (project_context.paused_message
                            (project_context.agent_name_of project_name))))).
Proof.
  cbv zeta. split.
  - destruct controls_file as [|e|v]; [left; reflexivity..|].
    run_controls. destruct v; cbn; try (left; reflexivity); split_controls; auto.
  - run_controls. destruct (String.eqb _ _); [left; reflexivity|].
    destruct controls_file as [|e|v]; [left; reflexivity| |].
    + destruct (project_context.is_caught e); left; reflexivity.
    + destruct v; cbn; try (left; reflexivity); split_controls; auto.
Qed.

(** X22 — What disables an agent, in [fork_extensions]: when the controls
    list the agent with an object of its own, every operation of the agent is
    refused with the disabled message exactly when that object has a key
    ["enabled"] whose value is false for Python ([false], [null], [0], an
    empty string, ...).  The pause flag and the operation play no part: a
    disabled agent can neither write nor read. *)
Theorem fork_disabled_agent project_name controls agents agent_config :
  controls !! "agents" = Some (VDict agents) ->
  agents !! project_name = Some (VDict agent_config) ->
  (forall operation,
     result (fork_extensions.check_agent_controls project_name (Loaded (VDict controls))
               operation) =
       inl (PermissionError (fork_extensions.disabled_message project_name)))
  <-> (exists v, agent_config !! "enabled" = Some v /\ truth v = false).
Proof.
  intros Hagents Hcfg.
  assert (dom controls <> (∅ : gset string)) as Hdom.
  { intros H. apply dom_empty_iff_L in H. subst controls. now rewrite lookup_empty in Hagents. }
  assert (forall operation,
            result (fork_extensions.check_agent_controls project_name (Loaded (VDict controls))
                      operation) =
              if negb (truth (default (VBool true) (agent_config !! "enabled")))
              then inl (PermissionError (fork_extensions.disabled_message project_name))
              else if truth (default (VBool false) (agent_config !! "paused"))
                        && fork_extensions.is_write operation
                   then inl (PermissionError (fork_extensions.paused_message project_name))
                   else inr tt) as Hrun.
  { intros operation. run_controls.
    rewrite (bool_decide_eq_false_2 _ Hdom), Hagents. cbn. rewrite Hcfg. cbn.
    split_controls; reflexivity. }
  split.
  - intros H. specialize (H fork_extensions.READ). rewrite Hrun in H.
    destruct (agent_config !! "enabled") as [v|] eqn:Hen; cbn in H.
    + exists v. split; [reflexivity|]. destruct (truth v); [|reflexivity].
      cbn in H. rewrite andb_false_r in H. discriminate.
    + rewrite andb_false_r in H. discriminate.
  - intros (v & Hv & Hfalse) operation. rewrite Hrun, Hv. cbn. now rewrite Hfalse.
Qed.

Lemma fork_disabled_agent_witness :
  let agent_config : gmap string Value := {[ "enabled" := VNone; "paused" := VBool false ]} in
  let agents : gmap string Value := {[ "build" := VDict agent_config ]} in
  let controls : gmap string Value := {[ "agents" := VDict agents ]} in
  controls !! "agents" = Some (VDict agents) /\
  agents !! "build" = Some (VDict agent_config) /\
  ((forall operation,
      result (fork_extensions.check_agent_controls "build" (Loaded (VDict controls)) operation) =
        inl (PermissionError (fork_extensions.disabled_message "build")))
   <-> (exists v, agent_config !! "enabled" = Some v /\ truth v = false)).
Proof.
  cbv zeta. split; [reflexivity|]. split; [reflexivity|].
  apply (fork_disabled_agent "build" {[ "agents" := VDict {[ "build" :=
           VDict {[ "enabled" := VNone; "paused" := VBool false ]} ]} ]}
           {[ "build" := VDict {[ "enabled" := VNone; "paused" := VBool false ]} ]}
           {[ "enabled" := VNone; "paused" := VBool false ]}); reflexivity.
Defined.

(** X23 — An agent that the controls do not list is not restricted, in
    [fork_extensions]: when the object under ["agents"] has no key equal to
    the project name, every operation is allowed; a misspelt name in the file
    restricts nobody. *)
Theorem fork_unlisted_agent_allowed project_name controls agents operation :
  controls !! "agents" = Some (VDict agents) ->
  agents !! project_name = None ->
  result (fork_extensions.check_agent_controls project_name (Loaded (VDict controls))
            operation) = inr tt.
Proof.
  intros Hagents Hcfg. run_controls. rewrite Hagents. cbn. rewrite Hcfg. cbn.
  split_controls; reflexivity.
Qed.

Lemma fork_unlisted_agent_allowed_witness :
  let agents : gmap string Value := {[ "build" := VDict {[ "enabled" := VBool false ]} ]} in
  let controls : gmap string Value := {[ "agents" := VDict agents ]} in
  controls !! "agents" = Some (VDict agents) /\
  agents !! "Build" = None /\
  result (fork_extensions.check_agent_controls "Build" (Loaded (VDict controls))
            fork_extensions.WRITE) = inr tt.
Proof.
  cbv zeta. split; [reflexivity|]. split; [reflexivity|].
  apply (fork_unlisted_agent_allowed "Build"
           {[ "agents" := VDict {[ "build" := VDict {[ "enabled" := VBool false ]} ]} ]}
           {[ "build" := VDict {[ "enabled" := VBool false ]} ]} fork_extensions.WRITE);
    reflexivity.
Defined.

(** X24 — A controls file of the wrong shape makes
    [fork_extensions.check_agent_controls] raise, and not the
    [PermissionError] that its callers catch.  A loaded value that is true
    and is neither an object, an array nor a string ([true], a number other
    than zero) raises [TypeError] at the test ["agents" not in controls]; an
    array or a string that contains ["agents"] raises [AttributeError] at
    [controls.get]; so does an ["agents"] value that is not an object, and an
    entry of the agent that is not an object. *)
Theorem fork_malformed_controls_raise project_name operation :
  let check controls :=
    result (fork_extensions.check_agent_controls project_name (Loaded controls) operation) in
  (forall controls,
     truth controls = true ->
     match controls with VStr _ | VList _ | VDict _ => False | _ => True end ->
     check controls = inl TypeError)
  /\ (forall controls,
        match controls with VStr _ | VList _ => True | _ => False end ->
        contains "agents" controls = inr true ->
        check controls = inl AttributeError)
  /\ (forall controls agents,
        controls !! "agents" = Some agents ->
        match agents with VDict _ => False | _ => True end ->
        check (VDict controls) = inl AttributeError)
  /\ (forall controls agents agent_config,
        controls !! "agents" = Some (VDict agents) ->
        agents !! project_name = Some agent_config ->
        match agent_config with VDict _ => False | _ => True end ->
        check (VDict controls) = inl AttributeError).
Proof.
  cbv zeta. repeat split.
  - intros v Ht Hshape. run_controls. rewrite Ht. cbn. now destruct v.
  - intros v Hshape Hin. run_controls.
    assert (truth v = true) as Ht.
    { destruct v; try contradiction; cbn in *.
      - destruct s; [discriminate|reflexivity].
      - destruct l; [discriminate|reflexivity]. }
    rewrite Ht. cbn. unfold contains in Hin.
    destruct v; try contradiction; simplify_eq; rewrite Hin; reflexivity.
  - intros d a Ha Hshape. run_controls.
    assert (dom d <> (∅ : gset string)) as Hdom.
    { intros H. apply dom_empty_iff_L in H. subst d. now rewrite lookup_empty in Ha. }
    rewrite (bool_decide_eq_false_2 _ Hdom), Ha. cbn. now destruct a.
  - intros d a c Ha Hc Hshape. run_controls.
    assert (dom d <> (∅ : gset string)) as Hdom.
    { intros H. apply dom_empty_iff_L in H. subst d. now rewrite lookup_empty in Ha. }
    rewrite (bool_decide_eq_false_2 _ Hdom), Ha. cbn. rewrite Hc. cbn. now destruct c.
Qed.

Lemma prefix_agent name : String.prefix "agent-" ("agent-" +:+ name) = true.
Proof. cbn. now destruct name. Qed.

(** X25 — [project_context.check_agent_controls] drops one prefix
    ["agent-"] from the project name: for every name that does not itself
    start with ["agent-"], the project ["agent-" + name] gets exactly the
    answer of the project [name], from the entry [name] of the controls, with
    the same message. *)
Theorem project_context_drops_agent_prefix config_dir controls_file name operation :
  String.prefix "agent-" name = false ->
  project_context.check_agent_controls config_dir controls_file ("agent-" +:+ name) operation =
  project_context.check_agent_controls config_dir controls_file name operation.
Proof.
  intros H. unfold project_context.check_agent_controls, project_context.agent_name_of.
  rewrite prefix_agent, H. reflexivity.
Qed.

Lemma project_context_drops_agent_prefix_witness :
  String.prefix "agent-" "build" = false /\
  forall config_dir controls_file operation,
    project_context.check_agent_controls config_dir controls_file ("agent-" +:+ "build") operation =
    project_context.check_agent_controls config_dir controls_file "build" operation.
Proof.
  split; [reflexivity|]. intros config_dir controls_file operation.
  apply (project_context_drops_agent_prefix config_dir controls_file "build" operation).
  reflexivity.
Defined.

(** X26 — [project_context.check_agent_controls] is open by default, but
    not on every failure.  Every operation is allowed when the environment
    variable [BASIC_MEMORY_CONFIG_DIR] is unset or empty (the file is then
    not looked at), when the file is missing, when opening it raises
    [OSError], when its text is no JSON, and when the loaded object has no
    key ["agents"].  A file whose bytes cannot be decoded and a JSON nested
    too deep are not caught: the [UnicodeDecodeError] or [RecursionError]
    leaves [check_agent_controls], whatever the project and the operation. *)
Theorem project_context_no_controls config_dir controls_file project_name operation :
  let answer :=
    result (project_context.check_agent_controls config_dir controls_file project_name
              operation) in
  (default "" config_dir = "" -> answer = inr tt)
  /\ (default "" config_dir <> "" ->
      match controls_file with
      | Missing | Unloadable ErrOS | Unloadable ErrJSONDecode => answer = inr tt
      | Unloadable e => answer = inl (LoadFailure e)
      | Loaded (VDict controls) => controls !! "agents" = None -> answer = inr tt
      | Loaded _ => answer = inl AttributeError
      end).
Proof.
  cbv zeta. split.
  - intros H. run_controls. now rewrite H.
  - intros H. run_controls. apply String.eqb_neq in H. rewrite H.
    destruct controls_file as [|[]|[]]; try reflexivity.
    intros Hagents. cbn. now rewrite Hagents.
Qed.

(** X27 — The two modules decide alike on a JSON object.  For controls that
    are an object, a project name without the prefix ["agent-"] and the same
    kind of operation, [fork_extensions.check_agent_controls] and
    [project_context.check_agent_controls] (its configuration directory being
    set) take the same decision: both allow, both refuse because the agent is
    disabled, both refuse because it is paused, or both raise the same
    exception; only the text of the two refusals differs between the
    modules. *)
Theorem modules_decide_alike config_dir controls project_name op_fork op_context :
  default "" config_dir <> "" ->
  String.prefix "agent-" project_name = false ->
  fork_extensions.is_write op_fork = project_context.is_write op_context ->
  exists decision,
    result (fork_extensions.check_agent_controls project_name (Loaded (VDict controls)) op_fork)
      = fork_extensions.answer project_name decision
    /\ result (project_context.check_agent_controls config_dir (Loaded (VDict controls))
                 project_name op_context)
        = project_context.answer project_name decision.
Proof.
  intros Hdir Hname Hop. apply String.eqb_neq in Hdir.
  unfold project_context.answer, fork_extensions.answer.
  run_controls. unfold project_context.agent_name_of. rewrite Hdir, Hname, Hop. cbn.
  destruct (bool_decide (dom controls = ∅)) eqn:Hdom; cbn.
  - apply bool_decide_eq_true_1, dom_empty_iff_L in Hdom. subst controls.
    rewrite !lookup_empty. cbn. rewrite lookup_empty. cbn. exists Allow. split; reflexivity.
  - destruct (controls !! "agents") as [agents|] eqn:Hagents; cbn.
    + destruct agents; cbn; try (exists (Fail AttributeError); split; reflexivity).
      destruct (d !! project_name) as [cfg|] eqn:Hcfg; cbn.
      * destruct cfg; cbn; try (exists (Fail AttributeError); split; reflexivity).
        destruct (negb (truth (default (VBool true) (d0 !! "enabled")))); cbn;
          [exists DenyDisabled; split; reflexivity|].
        destruct (truth (default (VBool false) (d0 !! "paused"))
                  && project_context.is_write op_context); cbn;
          [exists DenyPaused; split; reflexivity|exists Allow; split; reflexivity].
      * exists Allow. split; [|reflexivity]. split_controls; reflexivity.
    + rewrite lookup_empty. cbn. exists Allow. split; reflexivity.
Qed.

Lemma modules_decide_alike_witness :
  let controls : gmap string Value :=
    {[ "agents" := VDict {[ "build" := VDict {[ "paused" := VBool true ]} ]} ]} in
  default "" (Some ".agent-memory") <> "" /\
  String.prefix "agent-" "build" = false /\
  fork_extensions.is_write fork_extensions.WRITE = project_context.is_write project_context.WRITE /\
  exists decision,
    result (fork_extensions.check_agent_controls "build" (Loaded (VDict controls))
              fork_extensions.WRITE)
      = fork_extensions.answer "build" decision
    /\ result (project_context.check_agent_controls (Some ".agent-memory")
                 (Loaded (VDict controls)) "build" project_context.WRITE)
        = project_context.answer "build" decision.
Proof.
  cbv zeta. split; [discriminate|]. split; [reflexivity|]. split; [reflexivity|].
  apply (modules_decide_alike (Some ".agent-memory")
           {[ "agents" := VDict {[ "build" := VDict {[ "paused" := VBool true ]} ]} ]}
           "build" fork_extensions.WRITE project_context.WRITE);
    [discriminate | reflexivity | reflexivity].
Defined.

End AgentControls.

(** * Properties of the project enforcement *)

Section ProjectEnforcement.
Import Py server.

Lemma enforce_tool_patch tools_module patched attr_name s :
  enforce_tool tools_module patched attr_name s =
    match bound tools_module !! attr_name with
    | None => (s, inr patched)
    | Some r =>
        match patch attr_name (deref s r) with
        | inl e => (s, inl e)
        | inr None => (s, inr patched)
        | inr (Some t') =>
            (patched_store s r t' (default attr_name (name (deref s r))), inr (patched + 1))
        end
    end.
Proof.
  unfold enforce_tool, patch.
  destruct (bound tools_module !! attr_name) as [r|]; [|reflexivity].
  destruct (deref s r) as [n [[]|]] eqn:Ht; cbn; try reflexivity.
  unfold st_bind, st_lift, st_ret. cbn.
  destruct (contains "project" (default (VDict ∅) (d !! "properties"))) as [e|[|]]; cbn;
    try reflexivity.
  destruct (bool_decide (default attr_name n ∈ EXEMPT_TOOLS)); [reflexivity|].
  unfold setdefault.
  destruct (d !! "required") as [required|] eqn:Hreq; cbn.
  - destruct (contains "project" required) as [e|[|]]; cbn; try reflexivity.
    unfold append. destruct required; cbn; try reflexivity.
    unfold set_item, logger_debug, patched_store. rewrite Ht. cbn. reflexivity.
  - unfold set_item at 1. unfold st_bind. rewrite Ht. cbn.
    unfold append, set_item, deref. cbn. rewrite lookup_insert_eq. cbn.
    unfold logger_debug, patched_store. cbn. rewrite !insert_insert_eq. reflexivity.
Qed.

Lemma contains_project_appended l :
  contains "project" (VList (l ++ [VStr "project"])) = inr true.
Proof. cbn. rewrite existsb_app. cbn. now rewrite orb_true_r. Qed.

(** An object that has been patched is left alone from then on, under
    whatever name it is met again. *)
Lemma patch_settled attr_name attr_name' t t' :
  patch attr_name t = inr (Some t') -> patch attr_name' t' = inr None.
Proof.
  unfold patch. destruct t as [n [[]|]]; cbn; try discriminate.
  destruct (contains "project" (default (VDict ∅) (d !! "properties"))) as [e|[|]] eqn:Hprops;
    try discriminate.
  destruct (bool_decide (default attr_name n ∈ EXEMPT_TOOLS)); [discriminate|].
  destruct (contains "project" (default (VList []) (d !! "required"))) as [e|[|]];
    try discriminate.
  destruct (default (VList []) (d !! "required")); try discriminate.
  intros [= <-]. cbn.
  rewrite lookup_insert_ne by discriminate. rewrite Hprops.
  destruct (bool_decide (default attr_name' n ∈ EXEMPT_TOOLS)); [reflexivity|].
  rewrite lookup_insert_eq.
  change (default (VList []) (Some (VList (l ++ [VStr "project"]))))
    with (VList (l ++ [VStr "project"])).
  now rewrite contains_project_appended.
Qed.

Lemma evolves_refl s : evolves s s.
Proof. intros r. now left. Qed.

Lemma evolves_trans s1 s2 s3 : evolves s1 s2 -> evolves s2 s3 -> evolves s1 s3.
Proof.
  intros H12 H23 r. destruct (H12 r) as [H|(a & H)].
  - rewrite <- H. apply H23.
  - destruct (H23 r) as [H'|(a' & H')].
    + rewrite H'. right. eauto.
    + now rewrite (patch_settled a a' _ _ H) in H'.
Qed.

Lemma deref_patched_store s r t' tool_name r' :
  deref (patched_store s r t' tool_name) r' = if decide (r' = r) then t' else deref s r'.
Proof.
  unfold deref, patched_store. cbn. destruct (decide (r' = r)) as [->|Hne].
  - now rewrite lookup_insert_eq.
  - now rewrite lookup_insert_ne by congruence.
Qed.

Lemma enforce_tool_evolves tools_module patched attr_name s :
  evolves s (enforce_tool tools_module patched attr_name s).1.
Proof.
  rewrite enforce_tool_patch.
  destruct (bound tools_module !! attr_name) as [r|]; [|apply evolves_refl].
  destruct (patch attr_name (deref s r)) as [e|[t'|]] eqn:Hp; try apply evolves_refl.
  intros r'. cbn. rewrite deref_patched_store.
  destruct (decide (r' = r)) as [->|]; [right; eauto|now left].
Qed.

Lemma settled_evolves attr_name s s' r :
  evolves s s' -> patch attr_name (deref s r) = inr None ->
  patch attr_name (deref s' r) = inr None.
Proof.
  intros He Hs. destruct (He r) as [->|(a & H)]; [assumption|].
  exact (patch_settled a attr_name _ _ H).
Qed.

Lemma for_each_evolves tools_module names patched s :
  evolves s (for_each tools_module names patched s).1.
Proof.
  revert patched s. induction names as [|a names IH]; intros patched s; [apply evolves_refl|].
  cbn. unfold st_bind.
  pose proof (enforce_tool_evolves tools_module patched a s) as H1.
  destruct (enforce_tool tools_module patched a s) as [s1 [e|p1]]; [exact H1|].
  eapply evolves_trans; [exact H1|apply IH].
Qed.

(** Every name of the loop is settled when the loop has run to its end. *)
Lemma for_each_settles tools_module names patched s s1 n :
  for_each tools_module names patched s = (s1, inr n) ->
  forall attr_name r, attr_name ∈ names -> bound tools_module !! attr_name = Some r ->
    patch attr_name (deref s1 r) = inr None.
Proof.
  revert patched s. induction names as [|a names IH]; intros patched s Hrun attr_name r Hin Hb.
  - now apply elem_of_nil in Hin.
  - cbn in Hrun. unfold st_bind in Hrun.
    destruct (enforce_tool tools_module patched a s) as [s' [e|p']] eqn:Hstep; [discriminate|].
    apply elem_of_cons in Hin as [->|Hin]; [|exact (IH _ _ Hrun _ _ Hin Hb)].
    pose proof (for_each_evolves tools_module names p' s') as Hev. rewrite Hrun in Hev.
    apply (settled_evolves a s' s1 r Hev).
    rewrite enforce_tool_patch, Hb in Hstep.
    destruct (patch a (deref s r)) as [e|[t'|]] eqn:Hp; simplify_eq.
    + rewrite deref_patched_store, decide_True by reflexivity.
      exact (patch_settled a a _ _ Hp).
    + exact Hp.
Qed.

Lemma for_each_settled tools_module names patched s :
  (forall attr_name r, attr_name ∈ names -> bound tools_module !! attr_name = Some r ->
     patch attr_name (deref s r) = inr None) ->
  for_each tools_module names patched s = (s, inr patched).
Proof.
  induction names as [|a names IH]; intros Hs; [reflexivity|].
  cbn. unfold st_bind. rewrite enforce_tool_patch.
  destruct (bound tools_module !! a) as [r|] eqn:Hb.
  - rewrite (Hs a r) by (assumption || apply elem_of_cons; now left). apply IH.
    intros a' r' Hin. apply Hs. apply elem_of_cons. now right.
  - apply IH. intros a' r' Hin. apply Hs. apply elem_of_cons. now right.
Qed.

(** X28 — [enforce_project_schemas] is idempotent: when a call has
    returned, a second call on the store it left returns 0 and changes
    nothing, neither a schema nor the log; no tool gets ["project"] twice in
    its [required] list. *)
Theorem enforce_project_schemas_idempotent tools_module s s1 n :
  enforce_project_schemas tools_module s = (s1, inr n) ->
  enforce_project_schemas tools_module s1 = (s1, inr 0).
Proof.
  intros Hrun. apply for_each_settled. exact (for_each_settles _ _ _ _ _ _ Hrun).
Qed.

Lemma enforce_project_schemas_idempotent_witness :
  let first := enforce_project_schemas sample_tools sample_store in
  first = (first.1, inr 2)
  /\ enforce_project_schemas sample_tools first.1 = (first.1, inr 0).
Proof.
  cbv zeta. split; [vm_compute; reflexivity|].
  apply (enforce_project_schemas_idempotent sample_tools sample_store _ 2).
  vm_compute; reflexivity.
Defined.

(** X29 — What a completed [enforce_project_schemas] guarantees: when the
    call has returned, every name of [__all__] that is bound to an object
    whose [parameters] are a dict with ["project"] among its ["properties"],
    and whose tool name (the attribute [name], or the name in the module for
    an object without it) is not exempt, has ["project"] in the list under
    ["required"] of its schema. *)
Theorem enforce_project_schemas_requires_project tools_module s s1 n attr_name r params :
  enforce_project_schemas tools_module s = (s1, inr n) ->
  attr_name ∈ __all__ tools_module ->
  bound tools_module !! attr_name = Some r ->
  parameters (deref s1 r) = Some (VDict params) ->
  contains "project" (default (VDict ∅) (params !! "properties")) = inr true ->
  default attr_name (name (deref s1 r)) ∉ EXEMPT_TOOLS ->
  contains "project" (default (VList []) (params !! "required")) = inr true.
Proof.
  intros Hrun Hin Hb Hparams Hprops Hexempt.
  pose proof (for_each_settles _ _ _ _ _ _ Hrun attr_name r Hin Hb) as Hs.
  unfold patch in Hs. rewrite Hparams, Hprops in Hs.
  rewrite bool_decide_eq_false_2 in Hs by assumption. cbv zeta in Hs.
  destruct (contains "project" (default (VList []) (params !! "required"))) as [e|[|]];
    [discriminate|reflexivity|].
  destruct (default (VList []) (params !! "required")); discriminate.
Qed.

Lemma enforce_project_schemas_requires_project_witness :
  let first := enforce_project_schemas sample_tools sample_store in
  let params : gmap string Value :=
    {[ "properties" := VDict {[ "query" := VDict ∅; "project" := VDict ∅ ]};
       "required" := VList [VStr "project"] ]} in
  first = (first.1, inr 2)
  /\ ("search" ∈ __all__ sample_tools)
  /\ bound sample_tools !! "search" = Some 2%nat
  /\ parameters (deref first.1 2%nat) = Some (VDict params)
  /\ contains "project" (default (VDict ∅) (params !! "properties")) = inr true
  /\ (default "search" (name (deref first.1 2%nat)) ∉ EXEMPT_TOOLS)
  /\ contains "project" (default (VList []) (params !! "required")) = inr true.
Proof.
  cbv zeta.
  assert ("search" ∈ __all__ sample_tools) as Hin
    by (apply (bool_decide_unpack _); vm_compute; exact I).
  assert (default "search" (name (deref (enforce_project_schemas sample_tools sample_store).1
                                    2%nat)) ∉ EXEMPT_TOOLS) as Hex
    by (apply (bool_decide_eq_false_1 _); vm_compute; reflexivity).
  split; [vm_compute; reflexivity|]. split; [exact Hin|]. split; [reflexivity|].
  split; [vm_compute; reflexivity|]. split; [vm_compute; reflexivity|]. split; [exact Hex|].
  apply (enforce_project_schemas_requires_project sample_tools sample_store
           (enforce_project_schemas sample_tools sample_store).1 2 "search" 2%nat
           {[ "properties" := VDict {[ "query" := VDict ∅; "project" := VDict ∅ ]};
              "required" := VList [VStr "project"] ]});
    [vm_compute; reflexivity | exact Hin | reflexivity | vm_compute; reflexivity
    | vm_compute; reflexivity | exact Hex].
Defined.

(** X30 — [enforce_project_schemas] changes nothing but the [required]
    list of the tools it is meant for, however it ends (by returning or by an
    exception).  Every object of the store is as it was, or it has been
    patched once: its [parameters] are a dict with ["project"] among the
    ["properties"], its [name] is not exempt, ["project"] was not in its
    [required] list, and the only change is that ["project"] is appended to
    that list (the list being created when the key was missing).  An exempt
    tool, a tool without a ["project"] property and an object without
    [parameters] are never touched. *)
Theorem enforce_project_schemas_changes_required_only tools_module s r :
  let s1 := (enforce_project_schemas tools_module s).1 in
  deref s1 r = deref s r
  \/ exists params l,
       parameters (deref s r) = Some (VDict params)
       /\ contains "project" (default (VDict ∅) (params !! "properties")) = inr true
       /\ (forall tool_name, name (deref s r) = Some tool_name -> tool_name ∉ EXEMPT_TOOLS)
       /\ default (VList []) (params !! "required") = VList l
       /\ contains "project" (VList l) = inr false
       /\ deref s1 r =
            mkTool (name (deref s r))
              (Some (VDict (<[ "required" := VList (l ++ [VStr "project"]) ]> params))).
Proof.
  cbv zeta. destruct (for_each_evolves tools_module (__all__ tools_module) 0 s r) as [H|(a & H)];
    [now left|right].
  unfold enforce_project_schemas. revert H. generalize (deref (for_each tools_module (__all__ tools_module) 0 s).1 r).
  intros t1. unfold patch.
  destruct (deref s r) as [nm [[]|]]; cbn; try discriminate.
  destruct (contains "project" (default (VDict ∅) (d !! "properties"))) as [e|[|]] eqn:Hprops;
    try discriminate.
  destruct (bool_decide (default a nm ∈ EXEMPT_TOOLS)) eqn:Hex; [discriminate|].
  destruct (contains "project" (default (VList []) (d !! "required"))) as [e|[|]] eqn:Hreq;
    try discriminate.
  destruct (default (VList []) (d !! "required")) eqn:Hl; try discriminate.
  intros [= <-]. exists d, l. repeat split; try assumption.
  intros tool_name ->. cbn in Hex. now apply bool_decide_eq_false_1 in Hex.
Qed.

End ProjectEnforcement.
